(** * Trip-generation pipeline of the locations service

    A shallow embedding of [app/utils.py], [app/openai_client.py],
    [app/schemas.py], [app/services.py] and [app/routes.py], and the
    properties of the pipeline proved over it.

    Modelling conventions.
    - A Python call either returns a value or raises: [result A].
    - Decoded JSON (what [json.loads] returns) is the type [json]; a number is
      the exact rational ([Qc]) its literal denotes, so Python's [==] on
      decoded values is Leibniz equality.  The constants [NaN] and [Infinity],
      which [json.loads] accepts beyond the JSON standard, are not modelled.
    - A Python [str] is the string of its UTF-8 bytes; [len] and slices count
      characters, not bytes ([char_length], [char_prefix]).
    - Python's float arithmetic is an interface, [Arithmetic]: the distance
      and the greedy ordering are defined for every implementation of it, and
      so is every property that does not need the value of a distance.  Its
      operations raise where Python's do ([OverflowError] of a conversion,
      [ValueError] of [math.sqrt] and the like), and its laws are those of
      IEEE 754 comparison.  The real numbers implement it
      ([real_arithmetic]); what is stated about sample data, and the
      properties of the distance itself that say so, are stated for them.
    - The generative API is an oracle giving the outcome of each attempt; the
      requests sent and the sleeps taken are recorded in a trace. *)

From Stdlib Require Import ZArith QArith Qcanon Reals Lra Lia List Ascii String Bool.
From Stdlib Require Import Permutation.
From Equations Require Import Equations.
Import ListNotations.

Set Warnings "-register-all".

(** ** Decoded JSON values *)

Inductive json : Type :=
| JNull
| JBool (b : bool)
| JNum (q : Qc)
| JStr (s : string)
| JArr (items : list json)
| JObj (fields : list (string * json)).

(** Python's [==] on decoded values. *)
Fixpoint json_eq_dec (a b : json) {struct a} : {a = b} + {a <> b}.
Proof.
  decide equality.
  - apply Bool.bool_dec.
  - apply Qc_eq_dec.
  - apply string_dec.
  - apply (list_eq_dec json_eq_dec).
  - apply list_eq_dec. decide equality. apply string_dec.
Defined.

Definition json_eqb (a b : json) : bool :=
  if json_eq_dec a b then true else false.

(** [key in d] and [d[key]] on the fields of a dict. *)
Fixpoint assoc (key : string) (fields : list (string * json)) : option json :=
  match fields with
  | [] => None
  | (k, v) :: rest => if String.eqb k key then Some v else assoc key rest
  end.

(** A byte of the form [10xxxxxx]: it continues a character of the UTF-8
    encoding, every other byte starts one. *)
Definition is_continuation_byte (c : ascii) : bool :=
  match c with
  | Ascii _ _ _ _ _ _ false true => true
  | _ => false
  end.

(** [len(s)] of a [str]: its number of characters. *)
Fixpoint char_length (s : string) : nat :=
  match s with
  | EmptyString => 0%nat
  | String c rest =>
      if is_continuation_byte c then char_length rest else S (char_length rest)
  end.

(** [s[:n]] of a [str]: its first [n] characters. *)
Fixpoint char_prefix (n : nat) (s : string) : string :=
  match s with
  | EmptyString => EmptyString
  | String c rest =>
      if is_continuation_byte c then String c (char_prefix n rest)
      else
        match n with
        | O => EmptyString
        | S n' => String c (char_prefix n' rest)
        end
  end.

(** Truth value of a decoded value ([if not x]). *)
Definition truthy (v : json) : bool :=
  match v with
  | JNull => false
  | JBool b => b
  | JNum q => negb (Qc_eq_bool q (Q2Qc 0))
  | JStr s => negb (String.eqb s EmptyString)
  | JArr items => match items with [] => false | _ => true end
  | JObj fields => match fields with [] => false | _ => true end
  end.

(** ** Exceptions and results *)

(** The [detail] of the [HTTPException]s raised by [app/utils.py] and
    [app/routes.py]. *)
Inductive http_detail : Type :=
| NoLocationsGenerated                 (* "No locations generated" *)
| InvalidLocationData (shown : json)   (* f"Invalid location data: {...}" *)
| TripNotFound.                        (* "Trip not found for the given request ID" *)

Inductive exn : Type :=
| KeyError
| TypeError
| ValueError
| OverflowError
| UnboundLocalError
| JSONDecodeError
| ValidationError                      (* pydantic.ValidationError *)
| RateLimitError                       (* openai.RateLimitError *)
| APITimeoutError                      (* openai.APITimeoutError: a request timed out *)
| APIConnectionError                   (* openai.APIConnectionError *)
| APIError                             (* openai.APIError *)
| ChatGPTError
| HTTPException (status_code : Z) (detail : http_detail)
| OtherException (name : string).      (* any class named in no handler *)

Inductive result (A : Type) : Type :=
| Ok (a : A)
| Raise (e : exn).
Arguments Ok {A} a.
Arguments Raise {A} e.

Definition bind {A B : Type} (r : result A) (k : A -> result B) : result B :=
  match r with
  | Ok a => k a
  | Raise e => Raise e
  end.

Declare Scope py_scope.
Delimit Scope py_scope with py.
Notation "x <- r ;; k" := (bind r (fun x => k))
  (at level 61, r at next level, right associativity) : py_scope.
Local Open Scope py_scope.

(** A list comprehension whose body may raise: the first failure wins. *)
Fixpoint traverse {A B : Type} (f : A -> result B) (l : list A) : result (list B) :=
  match l with
  | [] => Ok []
  | x :: rest => y <- f x ;; ys <- traverse f rest ;; Ok (y :: ys)
  end.

Definition inspect {A : Type} (x : A) : {y : A | x = y} := exist _ x eq_refl.

(** ** Python's float arithmetic *)

(** What the distance computation uses of Python's [float] and [math], for a
    type [F] of floats.
    - [float_of_number]: the float of a decoded number, as [math.radians]
      converts its argument; [OverflowError] for an integer beyond the range
      of a float.  [float_of_int]: the float of an integer constant of the
      program text (2, 180, 6371).
    - [float_add], [float_sub], [float_mul], [float_div]: [+], [-], [*] and
      [/]; the program divides by the constants 2 and 180 only, so [/] never
      raises.  [float_pow]: [**], which raises [OverflowError].
    - [math_sin], [math_cos], [math_sqrt], [math_asin]: the functions of
      [math], which raise [ValueError] outside their domain.
    - [float_lt]: [<], as [min] uses it.  [math_isnan]: [math.isnan].
    The laws are those of [math.radians], which multiplies by [pi / 180], and
    of IEEE 754 comparison: [<] is irreflexive and transitive, and a float
    that is not a NaN is comparable with every other one. *)
Class Arithmetic (F : Type) : Type := {
  float_of_number : Qc -> result F;
  float_of_int : Z -> F;
  math_pi : F;
  float_add : F -> F -> F;
  float_sub : F -> F -> F;
  float_mul : F -> F -> F;
  float_div : F -> F -> F;
  float_pow : F -> Z -> result F;
  math_radians : F -> F;
  math_sin : F -> result F;
  math_cos : F -> result F;
  math_sqrt : F -> result F;
  math_asin : F -> result F;
  float_lt : F -> F -> bool;
  math_isnan : F -> bool;
  math_radians_spec :
    forall x, math_radians x = float_mul x (float_div math_pi (float_of_int 180));
  float_lt_irrefl : forall x, float_lt x x = false;
  float_lt_trans :
    forall x y z, float_lt x y = true -> float_lt y z = true -> float_lt x z = true;
  float_lt_total :
    forall x y z, math_isnan z = false -> float_lt x y = true ->
                  float_lt x z = true \/ float_lt z y = true
}.

(** *** The real numbers as floats *)

(** Floats without rounding: every number is converted exactly, nothing
    overflows and no value is a NaN; [math.sqrt] and [math.asin] keep their
    domain checks. *)
Module Exact.

Definition Rltb (x y : R) : bool := if Rlt_dec x y then true else false.

Definition real_sqrt (x : R) : result R :=
  if Rlt_dec x 0 then Raise ValueError else Ok (sqrt x).

Definition real_asin (x : R) : result R :=
  if Rlt_dec x (-1) then Raise ValueError
  else if Rlt_dec 1 x then Raise ValueError
  else Ok (asin x).

Lemma Rltb_irrefl (x : R) : Rltb x x = false.
Proof. unfold Rltb. destruct (Rlt_dec x x) as [H|_]; [lra|reflexivity]. Qed.

Lemma Rltb_trans (x y z : R) : Rltb x y = true -> Rltb y z = true -> Rltb x z = true.
Proof.
  unfold Rltb. destruct (Rlt_dec x y); [|discriminate].
  destruct (Rlt_dec y z); [|discriminate].
  destruct (Rlt_dec x z); [reflexivity|lra].
Qed.

Lemma Rltb_total (x y z : R) :
  false = false -> Rltb x y = true -> Rltb x z = true \/ Rltb z y = true.
Proof.
  unfold Rltb. intros _. destruct (Rlt_dec x y); [|discriminate]. intros _.
  destruct (Rlt_dec x z); [now left|]. destruct (Rlt_dec z y); [now right|lra].
Qed.

End Exact.

#[global] Instance real_arithmetic : Arithmetic R := {|
  float_of_number := fun q => Ok (Q2R q);
  float_of_int := IZR;
  math_pi := PI;
  float_add := Rplus;
  float_sub := Rminus;
  float_mul := Rmult;
  float_div := Rdiv;
  float_pow := fun x n => Ok (x ^ Z.to_nat n)%R;
  math_radians := fun x => (x * (PI / 180))%R;
  math_sin := fun x => Ok (sin x);
  math_cos := fun x => Ok (cos x);
  math_sqrt := Exact.real_sqrt;
  math_asin := Exact.real_asin;
  float_lt := Exact.Rltb;
  math_isnan := fun _ => false;
  math_radians_spec := fun x => eq_refl;
  float_lt_irrefl := Exact.Rltb_irrefl;
  float_lt_trans := Exact.Rltb_trans;
  float_lt_total := Exact.Rltb_total
|}.

(** ** [app/utils.py]: distance and greedy ordering *)

Module Geo.

Section Floats.

Context {F : Type} {arith : Arithmetic F}.

(** Lines 23-34.  The four arguments are the floats [math.radians] has made
    of the values passed. *)
Definition haversine_distance (lat1 lon1 lat2 lon2 : F) : result F :=
  let R_earth := float_of_int 6371 in
  let lat1 := math_radians lat1 in
  let lon1 := math_radians lon1 in
  let lat2 := math_radians lat2 in
  let lon2 := math_radians lon2 in
  let dlat := float_sub lat2 lat1 in
  let dlon := float_sub lon2 lon1 in
  sin_dlat <- math_sin (float_div dlat (float_of_int 2)) ;;
  sq_dlat <- float_pow sin_dlat 2 ;;
  cos_lat1 <- math_cos lat1 ;;
  cos_lat2 <- math_cos lat2 ;;
  sin_dlon <- math_sin (float_div dlon (float_of_int 2)) ;;
  sq_dlon <- float_pow sin_dlon 2 ;;
  let a := float_add sq_dlat (float_mul (float_mul cos_lat1 cos_lat2) sq_dlon) in
  root <- math_sqrt a ;;
  angle <- math_asin root ;;
  let c := float_mul (float_of_int 2) angle in
  Ok (float_mul R_earth c).

(** [loc[key]]: a dict without the key raises [KeyError], anything that is
    not a dict raises [TypeError]. *)
Definition getitem (loc : json) (key : string) : result json :=
  match loc with
  | JObj fields =>
      match assoc key fields with
      | Some v => Ok v
      | None => Raise KeyError
      end
  | _ => Raise TypeError
  end.

(** The argument conversion of [math.radians]: a number (a bool is one);
    anything else is a [TypeError]. *)
Definition to_float (v : json) : result F :=
  match v with
  | JNum q => float_of_number q
  | JBool b => float_of_number (Q2Qc (if b then 1 else 0))
  | _ => Raise TypeError
  end.

(** One element of the comprehension [distances]. *)
Definition distance_to (last_lat last_lon : json) (loc : json) : result (json * F) :=
  lat <- getitem loc "latitude" ;;
  lon <- getitem loc "longitude" ;;
  lat1 <- to_float last_lat ;;
  lon1 <- to_float last_lon ;;
  lat2 <- to_float lat ;;
  lon2 <- to_float lon ;;
  d <- haversine_distance lat1 lon1 lat2 lon2 ;;
  Ok (loc, d).

(** [min(distances, key=itemgetter(1))]: the running minimum is replaced
    only by a strictly smaller key, so the first minimal element wins. *)
Fixpoint min_from (best : json * F) (l : list (json * F)) : json * F :=
  match l with
  | [] => best
  | x :: rest => min_from (if float_lt (snd x) (snd best) then x else best) rest
  end.

Definition py_min (l : list (json * F)) : result (json * F) :=
  match l with
  | [] => Raise ValueError
  | x :: rest => Ok (min_from x rest)
  end.

(** [remaining.remove(x)]: drops the first element equal to [x]. *)
Fixpoint list_remove (x : json) (l : list json) : result (list json) :=
  match l with
  | [] => Raise ValueError
  | y :: rest =>
      if json_eqb y x then Ok rest
      else rest' <- list_remove x rest ;; Ok (y :: rest')
  end.

(** The closest remaining location to [last] (lines 53-61). *)
Definition closest_to (last : json) (remaining : list json) : result json :=
  last_lat <- getitem last "latitude" ;;
  last_lon <- getitem last "longitude" ;;
  distances <- traverse (distance_to last_lat last_lon) remaining ;;
  best <- py_min distances ;;
  Ok (fst best).

Lemma list_remove_length (x : json) (l l' : list json) :
  list_remove x l = Ok l' -> List.length l = S (List.length l').
Proof.
  revert l'; induction l as [|y rest IH]; simpl; intros l' H; [discriminate|].
  destruct (json_eqb y x).
  - now inversion H.
  - destruct (list_remove x rest) as [r|e]; simpl in H; [|discriminate].
    inversion H; subst; simpl. now rewrite (IH r eq_refl).
Qed.

(** The [while remaining:] loop; [ordered[-1]] is the last element placed. *)
Equations? order_loop (ordered remaining : list json) : result (list json)
  by wf (List.length remaining) lt :=
order_loop ordered [] := Ok ordered;
order_loop ordered (r :: rs) with closest_to (last ordered JNull) (r :: rs) := {
  | Raise e := Raise e
  | Ok closest_loc with inspect (list_remove closest_loc (r :: rs)) := {
     | exist _ (Raise e) _ := Raise e
     | exist _ (Ok remaining') Heq :=
         order_loop (ordered ++ [closest_loc]) remaining' } }.
Proof.
  pose proof (@list_remove_length closest_loc (r :: rs) remaining' Heq) as Hlen.
  simpl in Hlen. lia.
Qed.

Definition order_locations_by_distance (locations : list json) : result (list json) :=
  match locations with
  | [] => Ok locations
  | first :: rest => order_loop [first] rest
  end.

End Floats.

End Geo.

(** ** [app/schemas.py] *)

Inductive TripTypeEnum : Type :=
| several_places
| by_place.

Definition TripTypeEnum_eqb (a b : TripTypeEnum) : bool :=
  match a, b with
  | several_places, several_places => true
  | by_place, by_place => true
  | _, _ => false
  end.

(** [TripCreateRequest]: the body of a create-trip request. *)
Record TripCreateRequest : Type := {
  request_text : string;
  start_location : option string;
  req_num_places : option Z
}.

Module Schemas.

(** [LocationCreate]; the field constraints are those of the [Field(...)]
    declarations. *)
Record LocationCreate : Type := {
  trip_id : option Z;
  name : string;
  description : option string;
  latitude : Qc;
  longitude : Qc;
  address : option string;
  city : option string;
  country : option string;
  order : option Z
}.

(** The length the [min_length] and [max_length] constraints measure: the
    number of characters. *)
Definition str_len (s : string) : Z := Z.of_nat (char_length s).

(** A required [str] field with [min_length] and [max_length]. *)
Definition required_str (fields : list (string * json)) (key : string)
  (min_length max_length : Z) : result string :=
  match assoc key fields with
  | Some (JStr s) =>
      if ((min_length <=? str_len s) && (str_len s <=? max_length))%Z
      then Ok s else Raise ValidationError
  | _ => Raise ValidationError
  end.

(** An [Optional[str]] field with [max_length], default [None]. *)
Definition optional_str (fields : list (string * json)) (key : string)
  (max_length : Z) : result (option string) :=
  match assoc key fields with
  | None | Some JNull => Ok None
  | Some (JStr s) =>
      if (str_len s <=? max_length)%Z then Ok (Some s) else Raise ValidationError
  | Some _ => Raise ValidationError
  end.

Definition Qc_leb (x y : Qc) : bool := Qle_bool x y.

(** A required [float] field with [ge] and [le]. *)
Definition required_float (fields : list (string * json)) (key : string)
  (ge le : Z) : result Qc :=
  match assoc key fields with
  | Some (JNum q) =>
      if Qc_leb (Q2Qc (inject_Z ge)) q && Qc_leb q (Q2Qc (inject_Z le))
      then Ok q else Raise ValidationError
  | _ => Raise ValidationError
  end.

(** An [Optional[int]] field, default [None]. *)
Definition optional_int (fields : list (string * json)) (key : string)
  : result (option Z) :=
  match assoc key fields with
  | None | Some JNull => Ok None
  | Some (JNum q) =>
      if Pos.eqb (Qden q) 1 then Ok (Some (Qnum q)) else Raise ValidationError
  | Some _ => Raise ValidationError
  end.

(** [LocationCreate(trip_id=None, **location)].  Unpacking something that is
    not a dict, or a dict that has its own [trip_id] key, is a [TypeError] of
    the call; the field checks raise [ValidationError].  Keys that are not
    fields are ignored.

    The model accepts a value only when it has the JSON type its field
    declares.  pydantic also converts some values of another type (a numeric
    string or a boolean given for a [float] or an [int]); the model rejects
    those, so it accepts fewer records than the code does.  Every record the
    model accepts the code accepts too, with the same fields: nothing below
    is stated about a record the model rejects, apart from the sample records
    [latitude_200] and [no_latitude], which the code rejects as well. *)
Definition LocationCreate_new (location : json) : result LocationCreate :=
  match location with
  | JObj fields =>
      match assoc "trip_id" fields with
      | Some _ => Raise TypeError
      | None =>
          name <- required_str fields "name" 1 100 ;;
          description <- optional_str fields "description" 1000 ;;
          latitude <- required_float fields "latitude" (-90) 90 ;;
          longitude <- required_float fields "longitude" (-180) 180 ;;
          address <- optional_str fields "address" 255 ;;
          city <- optional_str fields "city" 100 ;;
          country <- optional_str fields "country" 100 ;;
          order <- optional_int fields "order" ;;
          Ok {| trip_id := None; name := name; description := description;
                latitude := latitude; longitude := longitude;
                address := address; city := city; country := country;
                order := order |}
      end
  | _ => Raise TypeError
  end.

End Schemas.

(** ** [app/utils.py]: [validate_prediction_locations] *)

Module Validator.

Section Floats.

Context {F : Type} {arith : Arithmetic F}.

(** The argument is whatever [parse_response] returned.  A falsy value is the
    "No locations generated" failure; a list is ordered and then promoted;
    a non-empty string (the other value [parse_response] can return) fails
    with [TypeError] when it is indexed or unpacked, and a dict is indexed by
    [0], a [KeyError]. *)
Definition validate_prediction_locations (prediction_locations_list : json)
  : result (list Schemas.LocationCreate) :=
  if negb (truthy prediction_locations_list)
  then Raise (HTTPException 400 NoLocationsGenerated)
  else
    match prediction_locations_list with
    | JArr items =>
        ordered_locations <- Geo.order_locations_by_distance items ;;
        match traverse Schemas.LocationCreate_new ordered_locations with
        | Ok locations_list => Ok locations_list
        | Raise ValidationError =>
            Raise (HTTPException 400 (InvalidLocationData (nth 0 items JNull)))
        | Raise e => Raise e
        end
    | JObj _ => Raise KeyError
    | _ => Raise TypeError
    end.

End Floats.

End Validator.

(** ** [app/models.py]: a stored trip *)

Record Trip : Type := {
  id : Z;
  request_id : Z;
  parent_id : option Z;
  response_json : json;
  num_places : option Z;
  trip_type : TripTypeEnum
}.

Definition request_id_of (t : Trip) : Z := request_id t.

(** ** [app/openai_client.py] *)

Module Client.

(** The two system prompts of [app/trip_prompts.py], by name. *)
Inductive prompt : Type :=
| TRIP_PROMPT_SEVERAL_PLACES
| TRIP_PROMPT_SINGLE_PLACE.

(** [TRIP_TYPE.get(trip_type, TRIP_PROMPT_SEVERAL_PLACES)]. *)
Definition TRIP_TYPE (trip_type : TripTypeEnum) : prompt :=
  match trip_type with
  | several_places => TRIP_PROMPT_SEVERAL_PLACES
  | by_place => TRIP_PROMPT_SINGLE_PLACE
  end.

(** Message text is kept as the pieces of the f-string that builds it. *)
Inductive fragment : Type :=
| Lit (s : string)
| Template (p : prompt)
| Repr (v : json)
| Int (n : Z).

Record message : Type := {
  role : string;
  content : list fragment
}.

(** The fields of [OpenAIChatClientTrip] the pipeline uses. *)
Record client : Type := {
  model : string;
  messages : list message;
  system_prompt : prompt
}.

Definition add_message (self : client) (role : string) (content : list fragment)
  : client :=
  {| model := model self;
     messages := messages self ++ [{| role := role; content := content |}];
     system_prompt := system_prompt self |}.

(** [self.messages.pop()]. *)
Definition pop_message (self : client) : client :=
  {| model := model self;
     messages := removelast (messages self);
     system_prompt := system_prompt self |}.

(** [OpenAIChatClientTrip(api_key, model, trip_type)]. *)
Definition new_client (model : string) (trip_type : TripTypeEnum) : client :=
  add_message
    {| model := model; messages := []; system_prompt := TRIP_TYPE trip_type |}
    "system" [Template (TRIP_TYPE trip_type)].

(** *** The generative API as seen by the client *)

(** The keyword arguments of [chat.completions.create]. *)
Record request : Type := {
  req_model : string;
  req_messages : list message;
  response_format : string;
  temperature : Q
}.

(** A response text together with what [json.loads] makes of it ([None] when
    it raises [JSONDecodeError]).  The texts on which [json.loads] fails in
    another way (an integer literal of more than 4300 digits is a plain
    [ValueError], nesting beyond the recursion limit a [RecursionError]) are
    not modelled: [parse_response] does not catch those, and nothing below is
    stated about them. *)
Record payload : Type := {
  text : string;
  loads : option json
}.

(** What one call of the API does: a completion whose first choice has the
    given content (which the API may leave empty), or an exception. *)
Inductive api_outcome : Type :=
| Completion (content : option payload)
| ApiRaise (e : exn).

Inductive event : Type :=
| Requested (r : request)
| Slept (seconds : Z).

(** The outcome of one pass through the body of the retry loop. *)
Inductive control : Type :=
| Continue (wait_time : option Z)
| Return (value : option payload)
| Propagate (e : exn).

Definition max_retries : nat := 4.
Definition backoff_base : Z := 1.
Definition max_wait : Z := 8.

(** The classes the [except] clauses of the retry loop name (lines 116 and
    127), as lines 6-7 and 16 bind them.  [Timeout] is what
    [from openai import Timeout] gives: the timeout settings of the HTTP
    client, a class that does not derive from [BaseException]; the exception
    of a request that timed out is [APITimeoutError]. *)
Inductive class_name : Type :=
| class_RateLimitError
| class_Timeout
| class_APIConnectionError
| class_APIError
| class_ChatGPTError.

Definition derives_from_BaseException (c : class_name) : bool :=
  match c with
  | class_Timeout => false
  | _ => true
  end.

(** [isinstance(e, c)].  In [openai], [RateLimitError] and
    [APIConnectionError] derive from [APIError], and [APITimeoutError] from
    [APIConnectionError]. *)
Definition isinstance (e : exn) (c : class_name) : bool :=
  match c, e with
  | class_RateLimitError, RateLimitError => true
  | class_APIConnectionError, (APIConnectionError | APITimeoutError) => true
  | class_APIError,
    (APIError | RateLimitError | APIConnectionError | APITimeoutError) => true
  | class_ChatGPTError, ChatGPTError => true
  | _, _ => false
  end.

(** Whether the clause [except (c1, ..., cn)] catches [e].  When an exception
    reaches the clause, Python first checks every class of the tuple and
    raises [TypeError] ("catching classes that do not inherit from
    BaseException is not allowed") if one of them is no exception class,
    whatever [e] is; that [TypeError] leaves the [try] statement. *)
Definition except_matches (classes : list class_name) (e : exn) : result bool :=
  if forallb derives_from_BaseException classes
  then Ok (existsb (isinstance e) classes)
  else Raise TypeError.

(** The two [except] clauses, for an exception raised in the [try] body. *)
Definition handle (attempt : nat) (e : exn) : control * list event :=
  match except_matches
          [class_RateLimitError; class_Timeout; class_APIConnectionError;
           class_APIError] e with
  | Raise raised => (Propagate raised, [])
  | Ok true =>
      let wait_time := Z.min (backoff_base * 2 ^ Z.of_nat attempt) max_wait in
      (Continue (Some wait_time), [Slept wait_time])
  | Ok false =>
      match except_matches [class_ChatGPTError] e with
      | Raise raised => (Propagate raised, [])
      | Ok true => (Return None, [])
      | Ok false => (Propagate e, [])
      end
  end.

(** [num_places and len(result) < num_places]. *)
Definition too_short (num_places : option Z) (content : option payload) : result bool :=
  match num_places with
  | None => Ok false
  | Some n =>
      if (n =? 0)%Z then Ok false
      else
        match content with
        | None => Raise TypeError
        | Some p => Ok (Z.of_nat (char_length (text p)) <? n)%Z
        end
  end.

(** The call [self.client.chat.completions.create(model=self.model,
    messages=self.messages, response_format={"type": "json_object"},
    temperature=0.7)]. *)
Definition completion_request (self : client) : request :=
  {| req_model := model self; req_messages := messages self;
     response_format := "json_object"; temperature := 7 # 10 |}.

(** The [try] body of one attempt, given what the API does.  [wait_time] is
    the local variable of that name: [None] while it is unbound.  Reading it
    unbound (line 111) raises [UnboundLocalError] inside the [try], which
    therefore goes through the [except] clauses like every other exception
    of the body. *)
Definition attempt_body (self : client) (num_places : option Z) (attempt : nat)
  (wait_time : option Z) (outcome : api_outcome) : control * list event :=
  let sent := Requested (completion_request self) in
  let '(ctl, evs) :=
    match outcome with
    | ApiRaise e => handle attempt e
    | Completion content =>
        match too_short num_places content with
        | Raise e => handle attempt e
        | Ok true =>
            match wait_time with
            | None => handle attempt UnboundLocalError
            | Some w => (Continue wait_time, [Slept w])
            end
        | Ok false => (Return content, [])
        end
    end in
  (ctl, sent :: evs).

(** [for attempt in range(max_retries)] and the [return None] after it. *)
Fixpoint attempts (self : client) (num_places : option Z) (api : nat -> api_outcome)
  (range : list nat) (wait_time : option Z) : result (option payload) * list event :=
  match range with
  | [] => (Ok None, [])
  | attempt :: rest =>
      let '(ctl, evs) := attempt_body self num_places attempt wait_time (api attempt) in
      match ctl with
      | Continue wait_time' =>
          let '(r, evs') := attempts self num_places api rest wait_time' in
          (r, evs ++ evs')
      | Return value => (Ok value, evs)
      | Propagate e => (Raise e, evs)
      end
  end.

(** Binding the arguments of a call to the one parameter [num_places], which
    has no default. *)
Definition bind_num_places (positional : list (option Z))
  (keywords : list (string * option Z)) : result (option Z) :=
  match positional, keywords with
  | [n], [] => Ok n
  | [], [(k, n)] => if String.eqb k "num_places" then Ok n else Raise TypeError
  | _, _ => Raise TypeError
  end.

Definition get_completions_create_response (self : client)
  (positional : list (option Z)) (keywords : list (string * option Z))
  (api : nat -> api_outcome) : result (option payload) * list event :=
  match bind_num_places positional keywords with
  | Raise e => (Raise e, [])
  | Ok num_places => attempts self num_places api (seq 0 max_retries) None
  end.

(** [json.loads(response_text)]. *)
Definition json_loads (response_text : option payload) : result json :=
  match response_text with
  | None => Raise TypeError
  | Some p =>
      match loads p with
      | Some v => Ok v
      | None => Raise JSONDecodeError
      end
  end.

(** [len(x)]. *)
Definition py_len (v : json) : result Z :=
  match v with
  | JArr items => Ok (Z.of_nat (List.length items))
  | JObj fields => Ok (Z.of_nat (List.length fields))
  | JStr s => Ok (Z.of_nat (char_length s))
  | _ => Raise TypeError
  end.

Definition parse_response (response_text : option payload) : result json :=
  let body :=
    locations <- json_loads response_text ;;
    let locations :=
      match locations with
      | JObj fields =>
          match assoc "locations" fields with
          | Some inner => inner
          | None => locations
          end
      | _ => locations
      end in
    let locations :=
      match locations with
      | JObj _ => JArr [locations]
      | _ => locations
      end in
    _ <- py_len locations ;;
    Ok locations in
  match body with
  | Raise JSONDecodeError => Ok (JArr [])
  | r => r
  end.

(** The [except ChatGPTError] clause of the two prediction methods. *)
Definition or_empty (r : result json) : result json :=
  match r with
  | Raise ChatGPTError => Ok (JArr [])
  | _ => r
  end.

Definition visiting_order : string :=
  ". Return a list of all locations in the order they should be visited.".

Definition is_set (n : option Z) : bool :=
  match n with
  | Some n => negb (n =? 0)%Z
  | None => false
  end.

Definition get_trip_prediction (self : client) (trip : TripCreateRequest)
  (trip_type : TripTypeEnum) (api : nat -> api_outcome)
  : result json * client * list event :=
  let req_text := [Lit "Generate location details for: "; Lit (request_text trip)] in
  let req_text :=
    match start_location trip with
    | Some s => if String.eqb s EmptyString then req_text
                else req_text ++ [Lit " "; Lit s]
    | None => req_text
    end in
  let req_text :=
    match req_num_places trip with
    | Some n =>
        if is_set (Some n) && negb (TripTypeEnum_eqb trip_type several_places)
        then req_text ++ [Lit ", num_places = "; Int n]
        else req_text
    | None => req_text
    end in
  let req_text := req_text ++ [Lit visiting_order] in
  let self := add_message self "user" req_text in
  let '(response_text, trace) :=
    get_completions_create_response self [] [("num_places"%string, req_num_places trip)] api in
  let outcome := or_empty (response_text <- response_text ;; parse_response response_text) in
  (* finally *)
  let self :=
    if (1 <? List.length (messages self))%nat then pop_message self else self in
  (outcome, self, trace).

Definition get_exlude_locations_prediction (self : client) (previous_trip : Trip)
  (exclude_text : string) (api : nat -> api_outcome)
  : result json * client * list event :=
  let self :=
    add_message self "user"
      [Lit "Previous generated trip was: "; Repr (response_json previous_trip)] in
  let self := add_message self "user" [Lit "Exclude text: "; Lit exclude_text] in
  let num_places_text :=
    match num_places previous_trip with
    | Some n =>
        if is_set (Some n) && TripTypeEnum_eqb (trip_type previous_trip) by_place
        then [Lit ". num_places = "; Int n]
        else []
    | None => []
    end in
  let num_places_text := num_places_text ++ [Lit visiting_order] in
  let self := add_message self "user" num_places_text in
  let '(response_text, trace) := get_completions_create_response self [] [] api in
  let outcome := or_empty (response_text <- response_text ;; parse_response response_text) in
  (* finally *)
  let self :=
    if (2 <? List.length (messages self))%nat
    then pop_message (pop_message self) else self in
  (outcome, self, trace).

End Client.

(** ** [app/services.py] and [app/routes.py]: storing a trip *)

Module Routes.

(** A row of the [locations] table. *)
Record Location : Type := {
  location_id : Z;
  data : Schemas.LocationCreate
}.

(** The two tables the pipeline writes; ids are assigned in insertion order,
    starting at 1. *)
Record database : Type := {
  trips : list Trip;
  locations : list Location
}.

Definition next_id {A : Type} (rows : list A) : Z := (Z.of_nat (List.length rows) + 1)%Z.

Definition is_dict (v : json) : bool :=
  match v with
  | JObj _ => true
  | _ => false
  end.

(** [TripCreate(...)]: [response_json] is declared
    [Optional[Dict[str, Any] | List[Dict[str, Any]]]]. *)
Definition TripCreate_new (request_id : Z) (parent_id : option Z)
  (response_json : json) (num_places : Z) (trip_type : TripTypeEnum)
  : result (Z -> Trip) :=
  let accepted :=
    match response_json with
    | JNull | JObj _ => true
    | JArr items => forallb is_dict items
    | _ => false
    end in
  if accepted then
    Ok (fun id => {| id := id; request_id := request_id; parent_id := parent_id;
                     response_json := response_json;
                     num_places := Some num_places; trip_type := trip_type |})
  else Raise ValidationError.

(** [TripService.create_trip]. *)
Definition TripService_create_trip (db : database) (trip_data : Z -> Trip)
  : database * Trip :=
  let db_trip := trip_data (next_id (trips db)) in
  ({| trips := trips db ++ [db_trip]; locations := locations db |}, db_trip).

(** The loop of [create_locations_for_trip]: [trip_id] and the 1-based
    [order] of each record. *)
Fixpoint assign_order (trip_id : Z) (i : Z) (locations_data : list Schemas.LocationCreate)
  : list Schemas.LocationCreate :=
  match locations_data with
  | [] => []
  | d :: rest =>
      {| Schemas.trip_id := Some trip_id; Schemas.name := Schemas.name d;
         Schemas.description := Schemas.description d;
         Schemas.latitude := Schemas.latitude d;
         Schemas.longitude := Schemas.longitude d;
         Schemas.address := Schemas.address d; Schemas.city := Schemas.city d;
         Schemas.country := Schemas.country d;
         Schemas.order := Some (i + 1)%Z |} :: assign_order trip_id (i + 1)%Z rest
  end.

(** [bulk_create_locations]. *)
Fixpoint bulk_create_locations (db : database) (locations_data : list Schemas.LocationCreate)
  : database * list Location :=
  match locations_data with
  | [] => (db, [])
  | d :: rest =>
      let location := {| location_id := next_id (locations db); data := d |} in
      let '(db', created) :=
        bulk_create_locations
          {| trips := trips db; locations := locations db ++ [location] |} rest in
      (db', location :: created)
  end.

Definition create_locations_for_trip (db : database) (trip_id : Z)
  (locations_data : list Schemas.LocationCreate) : result (database * list Location) :=
  if (trip_id =? 0)%Z then Raise ValueError
  else Ok (bulk_create_locations db (assign_order trip_id 0 locations_data)).

(** [TripService.get_trip]: the trip and its [locations] relationship. *)
Definition trip_locations (db : database) (trip_id : Z) : list Location :=
  filter (fun l => match Schemas.trip_id (data l) with
                   | Some t => (t =? trip_id)%Z
                   | None => false
                   end) (locations db).

Definition get_trip (db : database) (trip_id : Z) : option Trip :=
  find (fun t => (id t =? trip_id)%Z) (trips db).

(** A trip as the routes return it: the stored row and its locations. *)
Record TripAttempt : Type := {
  stored : Trip;
  persisted : list Location
}.

Section Floats.

Context {F : Type} {arith : Arithmetic F}.

(** Lines 64-98 of [create_trip]; lines 140-172 of
    [exclude_locations_from_trip] are the same with the previous trip's id as
    [parent_id] and its [trip_type].  The result is the trip as re-read from
    the database with its locations; the update of the audit request and the
    rendering as [TripResponse] are left out. *)
Definition store_trip (db : database) (request_id : Z) (parent_id : option Z)
  (trip_type : TripTypeEnum) (prediction_locations_list : json)
  : result (database * TripAttempt) :=
  locations_list <- Validator.validate_prediction_locations prediction_locations_list ;;
  n <- Client.py_len prediction_locations_list ;;
  trip_data <- TripCreate_new request_id parent_id prediction_locations_list n trip_type ;;
  let '(db, trip) := TripService_create_trip db trip_data in
  created <- create_locations_for_trip db (id trip) locations_list ;;
  let '(db, _) := created in
  match get_trip db (id trip) with
  | Some trip => Ok (db, {| stored := trip; persisted := trip_locations db (id trip) |})
  | None => Raise (OtherException "AttributeError")
  end.

(** [config.openai_model]. *)
Definition openai_model : string := "gpt-3.5-turbo-1106".

(** The route [POST /trip/]. *)
Definition create_trip (db : database) (request_id : Z) (trip_data : TripCreateRequest)
  (trip_type : TripTypeEnum) (api : nat -> Client.api_outcome)
  : result (database * TripAttempt) :=
  let chat_trip := Client.new_client openai_model trip_type in
  let '(prediction, _, _) := Client.get_trip_prediction chat_trip trip_data trip_type api in
  prediction_locations_list <- prediction ;;
  store_trip db request_id None trip_type prediction_locations_list.

(** [TripService.get_trip_by_request_id] ([scalar_one_or_none]). *)
Definition get_trip_by_request_id (db : database) (request_id : Z) : result (option Trip) :=
  match filter (fun t => (request_id_of t =? request_id)%Z) (trips db) with
  | [] => Ok None
  | [t] => Ok (Some t)
  | _ => Raise (OtherException "MultipleResultsFound")
  end.

(** The route [POST /trip/exclude]. *)
Definition exclude_locations_from_trip (db : database) (request_id : Z)
  (current_request_id : Z) (exclude_text : string) (api : nat -> Client.api_outcome)
  : result (database * TripAttempt) :=
  found <- get_trip_by_request_id db request_id ;;
  match found with
  | None => Raise (HTTPException 404 TripNotFound)
  | Some previous_trip =>
      let chat_trip := Client.new_client openai_model (trip_type previous_trip) in
      let '(prediction, _, _) :=
        Client.get_exlude_locations_prediction chat_trip previous_trip exclude_text api in
      prediction_locations_list <- prediction ;;
      store_trip db current_request_id (Some (id previous_trip))
        (trip_type previous_trip) prediction_locations_list
  end.

End Floats.

(** Every stored row refers to ids already handed out. *)
Definition references_ok (db : database) : Prop :=
  Forall (fun l => match Schemas.trip_id (data l) with
                   | Some t => (t < next_id (trips db))%Z
                   | None => True
                   end) (locations db)
  /\ Forall (fun t => (id t < next_id (trips db))%Z) (trips db).

Definition empty_database : database := {| trips := []; locations := [] |}.

End Routes.

(** ** The contract of the ordering, in the words of its specification *)

Module Contract.

(** Whether a raw location has numeric [latitude] and [longitude]. *)
Definition is_number (v : json) : bool :=
  match v with
  | JNum _ | JBool _ => true
  | _ => false
  end.

Definition located (loc : json) : bool :=
  match loc with
  | JObj fields =>
      match assoc "latitude" fields, assoc "longitude" fields with
      | Some lat, Some lon => is_number lat && is_number lon
      | _, _ => false
      end
  | _ => false
  end.

Definition number_value (v : json) : Qc :=
  match v with
  | JNum q => q
  | JBool true => Q2Qc 1
  | _ => Q2Qc 0
  end.

(** A coordinate of a location, in degrees, as decoded. *)
Definition degrees (loc : json) (key : string) : Qc :=
  match loc with
  | JObj fields =>
      match assoc key fields with
      | Some v => number_value v
      | None => Q2Qc 0
      end
  | _ => Q2Qc 0
  end.

Section Floats.

Context {F : Type} {arith : Arithmetic F}.

(** Degrees to radians: times [pi / 180]. *)
Definition to_radians (deg : F) : F :=
  float_mul deg (float_div math_pi (float_of_int 180)).

(** The haversine of an angle: the square of the sine of its half. *)
Definition hav (theta : F) : result F :=
  half_sine <- math_sin (float_div theta (float_of_int 2)) ;;
  float_pow half_sine 2.

(** The haversine formula on a sphere of radius 6371 km, the inputs in
    degrees: with latitudes [phi] and longitudes [lambda] in radians,
    [h = hav (phi2 - phi1) + cos phi1 * cos phi2 * hav (lambda2 - lambda1)]
    and the distance is [6371 * (2 * asin (sqrt h))], computed in the
    arithmetic of the program. *)
Definition great_circle_km (lat1 lon1 lat2 lon2 : F) : result F :=
  let phi1 := to_radians lat1 in
  let lambda1 := to_radians lon1 in
  let phi2 := to_radians lat2 in
  let lambda2 := to_radians lon2 in
  hav_phi <- hav (float_sub phi2 phi1) ;;
  cos_phi1 <- math_cos phi1 ;;
  cos_phi2 <- math_cos phi2 ;;
  hav_lambda <- hav (float_sub lambda2 lambda1) ;;
  let h := float_add hav_phi (float_mul (float_mul cos_phi1 cos_phi2) hav_lambda) in
  root <- math_sqrt h ;;
  angle <- math_asin root ;;
  Ok (float_mul (float_of_int 6371) (float_mul (float_of_int 2) angle)).

(** The distance between two locations. *)
Definition separation (p q : json) : result F :=
  lat1 <- float_of_number (degrees p "latitude") ;;
  lon1 <- float_of_number (degrees p "longitude") ;;
  lat2 <- float_of_number (degrees q "latitude") ;;
  lon2 <- float_of_number (degrees q "longitude") ;;
  great_circle_km lat1 lon1 lat2 lon2.

(** The distance between [p] and [q] is a number: its computation raises
    nothing and does not give a NaN. *)
Definition measured (p q : json) : Prop :=
  exists d, separation p q = Ok d /\ math_isnan d = false.

(** [p] is strictly closer to [last] than [q] is. *)
Definition closer (last p q : json) : Prop :=
  exists dp dq,
    separation last p = Ok dp /\ separation last q = Ok dq /\ float_lt dp dq = true.

(** [p] is at most as far from [last] as [q] is. *)
Definition not_farther (last p q : json) : Prop :=
  exists dp dq,
    separation last p = Ok dp /\ separation last q = Ok dq /\ float_lt dq dp = false.

(** [nearest_neighbour_route last remaining route]: [route] visits
    [remaining] by always moving to the not-yet-placed element closest to the
    element placed last, the earliest such element of the input on a tie. *)
Inductive nearest_neighbour_route : json -> list json -> list json -> Prop :=
| route_done (last : json) : nearest_neighbour_route last [] []
| route_next (last next : json) (before after route : list json) :
    Forall (closer last next) before ->
    Forall (not_farther last next) after ->
    nearest_neighbour_route next (before ++ after) route ->
    nearest_neighbour_route last (before ++ next :: after) (next :: route).

(** The distance as a value, for the pairs that have one. *)
Definition separation_value (p q : json) : F :=
  match separation p q with
  | Ok d => d
  | Raise _ => float_of_int 0
  end.

End Floats.

(** With real arithmetic, the formula in closed form. *)
Definition haversine_term (lat1 lon1 lat2 lon2 : R) : R :=
  ((sin ((lat2 * (PI / 180) - lat1 * (PI / 180)) / 2)) ^ 2
   + cos (lat1 * (PI / 180)) * cos (lat2 * (PI / 180))
     * (sin ((lon2 * (PI / 180) - lon1 * (PI / 180)) / 2)) ^ 2)%R.

Definition real_great_circle_km (lat1 lon1 lat2 lon2 : R) : R :=
  (6371 * (2 * asin (sqrt (haversine_term lat1 lon1 lat2 lon2))))%R.

End Contract.

(** ** Sample data: [MOCK_LOCATIONS] of [tests/test_locations.py] *)

Module Samples.

Definition place (name description : string) (latitude longitude : Q)
  (address city country : string) : json :=
  JObj [("name"%string, JStr name); ("description"%string, JStr description);
        ("latitude"%string, JNum (Q2Qc latitude));
        ("longitude"%string, JNum (Q2Qc longitude));
        ("address"%string, JStr address); ("city"%string, JStr city);
        ("country"%string, JStr country)].

Definition eiffel_tower : json :=
  place "Eiffel Tower" "Iconic landmark in Paris" (488584 # 10000) (22945 # 10000)
    "Champ de Mars, 5 Avenue Anatole France, 75007 Paris, France" "Paris" "France".

Definition berlin : json :=
  place "Berlin" "Capital city of Germany" (5252 # 100) (13405 # 1000)
    "Berlin, Germany" "Berlin" "Germany".

Definition kyiv : json :=
  place "Kyiv" "Capital city of Ukraine" (504501 # 10000) (305234 # 10000)
    "Kyiv, Ukraine" "Kyiv" "Ukraine".

Definition MOCK_LOCATIONS : list json := [eiffel_tower; berlin; kyiv].

(** A record whose latitude is out of range. *)
Definition latitude_200 : json :=
  place "Nowhere" "Latitude out of range" 200 10 "No address" "No city" "No country".

(** A record without a latitude. *)
Definition no_latitude : json :=
  JObj [("name"%string, JStr "Unplaced"); ("longitude"%string, JNum (Q2Qc 10))].

(** The Eiffel Tower under a second name, for ties. *)
Definition tour_eiffel : json :=
  place "Tour Eiffel" "Iconic landmark in Paris" (488584 # 10000) (22945 # 10000)
    "Champ de Mars, 5 Avenue Anatole France, 75007 Paris, France" "Paris" "France".

End Samples.

(** ** Vocabulary of the properties below *)

Module Observed.

(** *** Traces of the retry call *)

Definition is_request (ev : Client.event) : bool :=
  match ev with
  | Client.Requested _ => true
  | Client.Slept _ => false
  end.

(** *** Calls on one client *)

(** A call made on a client, with what the API will do during it. *)
Inductive call : Type :=
| PredictTrip (trip : TripCreateRequest) (trip_type : TripTypeEnum)
    (api : nat -> Client.api_outcome)
| PredictExclusion (previous_trip : Trip) (exclude_text : string)
    (api : nat -> Client.api_outcome).

(** The client after a call, whether the call returned or raised. *)
Definition after_call (self : Client.client) (c : call) : Client.client :=
  match c with
  | PredictTrip trip trip_type api =>
      snd (fst (Client.get_trip_prediction self trip trip_type api))
  | PredictExclusion previous_trip exclude_text api =>
      snd (fst (Client.get_exlude_locations_prediction self previous_trip exclude_text api))
  end.

Definition after_calls (self : Client.client) (calls : list call) : Client.client :=
  fold_left after_call calls self.

Definition system_message (trip_type : TripTypeEnum) : Client.message :=
  {| Client.role := "system";
     Client.content := [Client.Template (Client.TRIP_TYPE trip_type)] |}.

(** *** Validation of a response text *)

Section Floats.

Context {F : Type} {arith : Arithmetic F}.

(** What [parse_response] and [validate_prediction_locations] make of a
    response text. *)
Definition validated (p : Client.payload) : result (list Schemas.LocationCreate) :=
  bind (Client.parse_response (Some p)) Validator.validate_prediction_locations.

End Floats.

(** A location object: a dict that is not itself a [locations] wrapper. *)
Definition is_location_object (v : json) : bool :=
  match v with
  | JObj fields =>
      match assoc "locations" fields with
      | None => true
      | Some _ => false
      end
  | _ => false
  end.

End Observed.

Import Observed.

(** ** [app/map_gen.py] and the map route *)

Module MapGen.

(** An element of [locations_data]: [(latitude, longitude)] or
    [(latitude, longitude, description)]. *)
Inductive location_tuple : Type :=
| Pair (lat lon : Qc)
| Triple (lat lon : Qc) (description : option string).

(** [location[:2]]. *)
Definition coordinates (location : location_tuple) : Qc * Qc :=
  match location with
  | Pair lat lon => (lat, lon)
  | Triple lat lon _ => (lat, lon)
  end.

(** [location[2] if len(location) > 2 else ""]. *)
Definition description_of (location : location_tuple) : option string :=
  match location with
  | Pair _ _ => Some EmptyString
  | Triple _ _ description => description
  end.

(** The [tooltip] argument: the description cut to 50 characters and
    followed by three dots when it is longer. *)
Definition tooltip_of (description : option string) : option string :=
  match description with
  | Some d =>
      if negb (String.eqb d EmptyString) && (50 <? char_length d)%nat
      then Some (String.append (char_prefix 50 d) "...")
      else description
  | None => None
  end.

(** What is handed to [folium]: the map is described by the calls made on
    it, its rendering by [_repr_html_] is left to the library. *)
Record Marker : Type := {
  marker_location : Qc * Qc;
  popup : option string;
  tooltip : option string
}.

Record Map : Type := {
  center : Qc * Qc;
  markers : list Marker;
  path : option (list (Qc * Qc));
  bounds : option ((Qc * Qc) * (Qc * Qc))
}.

Definition generate_full_map_html (locations_data : list location_tuple) : Map :=
  let first_location :=
    match locations_data with
    | first :: _ => coordinates first
    | [] => (Q2Qc 0, Q2Qc 0)
    end in
  {| center := first_location;
     markers :=
       map (fun location =>
              {| marker_location := coordinates location;
                 popup := description_of location;
                 tooltip := tooltip_of (description_of location) |})
           locations_data;
     path :=
       if (1 <? List.length locations_data)%nat
       then Some (map coordinates locations_data)
       else None;
     bounds :=
       match locations_data with
       | [] => None
       | first :: _ =>
           Some (coordinates first, coordinates (last locations_data first))
       end |}.

(** The route [GET /trip/{trip_id}/mapHTML]: the status code and the map. *)
Definition generate_html_from_map (db : Routes.database) (trip_id : Z)
  : Z * option Map :=
  match Routes.get_trip db trip_id with
  | None => (404%Z, None)
  | Some trip =>
      match Routes.trip_locations db trip_id with
      | [] => (404%Z, None)
      | locations =>
          (200%Z,
           Some (generate_full_map_html
                   (map (fun loc =>
                           Triple (Schemas.latitude (Routes.data loc))
                                  (Schemas.longitude (Routes.data loc))
                                  (Schemas.description (Routes.data loc)))
                        locations)))
      end
  end.

End MapGen.

(** ** [app/schemas.py]: the audit record of a request *)

Module Audit.

(** [RequestCreate]: [headers] and [body] are optional dicts. *)
Record RequestCreate : Type := {
  method : string;
  url : string;
  headers : option (list (string * json));
  body : option (list (string * json))
}.

Definition optional (to_json : string -> json) (o : option string) : json :=
  match o with
  | Some s => to_json s
  | None => JNull
  end.

(** [trip_data.model_dump()] of a [TripCreateRequest]: one key per field. *)
Definition TripCreateRequest_model_dump (trip_data : TripCreateRequest)
  : list (string * json) :=
  [("request_text"%string, JStr (request_text trip_data));
   ("start_location"%string, optional JStr (start_location trip_data));
   ("num_places"%string,
    match req_num_places trip_data with
    | Some n => JNum (Q2Qc (inject_Z n))
    | None => JNull
    end)].

(** [trip_data.model_dump()] of an [ExcludeLocationsRequest]. *)
Definition ExcludeLocationsRequest_model_dump (exclude_text : string)
  : list (string * json) :=
  [("exclude_text"%string, JStr exclude_text)].

(** [RequestCreate.validate_body]: the first test cannot fire, [body] being
    a dict by its type; the second raises [ValueError] for a non-empty body
    without a [text] key. *)
Definition validate_body (self : RequestCreate) : result unit :=
  match body self with
  | Some (field :: fields) =>
      match assoc "text" (field :: fields) with
      | None => Raise ValueError
      | Some _ => Ok tt
      end
  | _ => Ok tt
  end.

(** The audit record the create-trip route writes (lines 54-62). *)
Definition create_trip_audit (method url : string)
  (headers : option (list (string * json))) (trip_data : TripCreateRequest)
  : RequestCreate :=
  {| method := method; url := url; headers := headers;
     body := Some (TripCreateRequest_model_dump trip_data) |}.

(** The audit record the exclusion route writes (lines 130-138). *)
Definition exclusion_audit (method url : string)
  (headers : option (list (string * json))) (exclude_text : string)
  : RequestCreate :=
  {| method := method; url := url; headers := headers;
     body := Some (ExcludeLocationsRequest_model_dump exclude_text) |}.

End Audit.

(** ** Further vocabulary *)

Module Checks.



(** The message an exclusion call leaves in the conversation. *)
Definition exclusion_context (c : call) : list Client.message :=
  match c with
  | PredictExclusion previous_trip _ _ =>
      [{| Client.role := "user";
          Client.content := [Client.Lit "Previous generated trip was: ";
                             Client.Repr (response_json previous_trip)] |}]
  | PredictTrip _ _ _ => []
  end.

Section Floats.

Context {F : Type} {arith : Arithmetic F}.

(** [e] is raised while the distance between two elements of [locations]
    is computed. *)
Definition distance_raises (locations : list json) (e : exn) : Prop :=
  exists p q,
    In p locations /\ In q locations /\ Contract.separation p q = Raise e.

End Floats.

End Checks.

(** * Properties *)

(** ** Distance *)

Section Distance.

Context {F : Type} {arith : Arithmetic F}.

(** The code computes the haversine formula of the contract, operation by
    operation. *)
Lemma haversine_distance_formula (lat1 lon1 lat2 lon2 : F) :
  Geo.haversine_distance lat1 lon1 lat2 lon2
  = Contract.great_circle_km lat1 lon1 lat2 lon2.
Proof.
  unfold Geo.haversine_distance, Contract.great_circle_km, Contract.hav,
    Contract.to_radians.
  cbv zeta. rewrite !math_radians_spec.
  set (phi1 := float_mul lat1 _). set (phi2 := float_mul lat2 _).
  set (lambda1 := float_mul lon1 _). set (lambda2 := float_mul lon2 _).
  destruct (math_sin (float_div (float_sub phi2 phi1) (float_of_int 2)))
    as [s1|e]; cbn [bind]; [|reflexivity].
  destruct (float_pow s1 2) as [p1|e]; cbn [bind]; [|reflexivity].
  destruct (math_cos phi1) as [c1|e]; cbn [bind]; [|reflexivity].
  destruct (math_cos phi2) as [c2|e]; cbn [bind]; [|reflexivity].
  destruct (math_sin (float_div (float_sub lambda2 lambda1) (float_of_int 2)))
    as [s2|e]; cbn [bind]; [|reflexivity].
  destruct (float_pow s2 2) as [p2|e]; cbn [bind]; reflexivity.
Qed.

End Distance.

Lemma cos_product (u v : R) :
  (cos u * cos v
   = cos ((v + u) / 2) * cos ((v + u) / 2) - sin ((v - u) / 2) * sin ((v - u) / 2))%R.
Proof.
  set (m := ((v - u) / 2)%R). set (p := ((v + u) / 2)%R).
  replace u with (p - m)%R by (unfold p, m; field).
  replace v with (p + m)%R by (unfold p, m; field).
  rewrite cos_minus, cos_plus.
  pose proof (sin2_cos2 m) as Hm. pose proof (sin2_cos2 p) as Hp.
  unfold Rsqr in Hm, Hp.
  assert (Hcm : (cos m * cos m = 1 - sin m * sin m)%R) by lra.
  assert (Hsp : (sin p * sin p = 1 - cos p * cos p)%R) by lra.
  transitivity (cos p * cos p * (cos m * cos m) - sin p * sin p * (sin m * sin m))%R.
  - ring.
  - rewrite Hcm, Hsp. ring.
Qed.

Lemma haversine_term_range (lat1 lon1 lat2 lon2 : R) :
  (0 <= Contract.haversine_term lat1 lon1 lat2 lon2 <= 1)%R.
Proof.
  unfold Contract.haversine_term.
  set (u := (lat1 * (PI / 180))%R). set (v := (lat2 * (PI / 180))%R).
  set (y := ((lon2 * (PI / 180) - lon1 * (PI / 180)) / 2)%R).
  rewrite (cos_product u v).
  set (m := ((v - u) / 2)%R).
  set (p := ((v + u) / 2)%R).
  pose proof (sin2_cos2 m) as Hm. pose proof (sin2_cos2 p) as Hp.
  pose proof (sin2_cos2 y) as Hy. unfold Rsqr in Hm, Hp, Hy.
  set (sm := sin m) in *. set (cm := cos m) in *.
  set (sp := sin p) in *. set (cp := cos p) in *.
  set (sy := sin y) in *. set (cy := cos y) in *.
  assert (Ha : (sm ^ 2 + (cp * cp - sm * sm) * sy ^ 2
                = sm * sm * (cy * cy) + cp * cp * (sy * sy))%R).
  { assert (Hcy : (cy * cy = 1 - sy * sy)%R) by lra.
    rewrite Hcy. ring. }
  rewrite Ha.
  assert (0 <= sm * sm)%R by apply Rle_0_sqr.
  assert (0 <= cm * cm)%R by apply Rle_0_sqr.
  assert (0 <= sp * sp)%R by apply Rle_0_sqr.
  assert (0 <= cp * cp)%R by apply Rle_0_sqr.
  assert (0 <= sy * sy)%R by apply Rle_0_sqr.
  assert (0 <= cy * cy)%R by apply Rle_0_sqr.
  assert (0 <= sm * sm * (cy * cy))%R by (apply Rmult_le_pos; assumption).
  assert (0 <= cp * cp * (sy * sy))%R by (apply Rmult_le_pos; assumption).
  assert (sm * sm * (cy * cy) <= 1 * (cy * cy))%R
    by (apply Rmult_le_compat_r; [assumption | lra]).
  assert (cp * cp * (sy * sy) <= 1 * (sy * sy))%R
    by (apply Rmult_le_compat_r; [assumption | lra]).
  split; lra.
Qed.

(** With real arithmetic the domain checks of [math.sqrt] and [math.asin]
    never fire, and the formula has its closed form. *)
Lemma great_circle_km_real (lat1 lon1 lat2 lon2 : R) :
  Contract.great_circle_km lat1 lon1 lat2 lon2
  = Ok (Contract.real_great_circle_km lat1 lon1 lat2 lon2).
Proof.
  unfold Contract.great_circle_km, Contract.hav, Contract.to_radians,
    Contract.real_great_circle_km.
  cbn [bind math_sin math_cos float_pow float_mul float_div float_sub float_add
       float_of_int math_pi math_sqrt math_asin real_arithmetic].
  change (Z.to_nat 2) with 2%nat.
  fold (Contract.haversine_term lat1 lon1 lat2 lon2).
  set (a := Contract.haversine_term _ _ _ _).
  destruct (haversine_term_range lat1 lon1 lat2 lon2) as [Hlo Hhi].
  fold a in Hlo, Hhi.
  unfold Exact.real_sqrt.
  destruct (Rlt_dec a 0) as [Hneg|_]; [lra|]. cbn [bind].
  assert (Hs0 : (0 <= sqrt a)%R) by apply sqrt_pos.
  assert (Hs1 : (sqrt a <= 1)%R).
  { rewrite <- sqrt_1. apply sqrt_le_1_alt. exact Hhi. }
  unfold Exact.real_asin.
  destruct (Rlt_dec (sqrt a) (-1)) as [Hbad|_]; [lra|].
  destruct (Rlt_dec 1 (sqrt a)) as [Hbad|_]; [lra|].
  reflexivity.
Qed.

Lemma haversine_distance_real (lat1 lon1 lat2 lon2 : R) :
  Geo.haversine_distance lat1 lon1 lat2 lon2
  = Ok (Contract.real_great_circle_km lat1 lon1 lat2 lon2).
Proof.
  rewrite haversine_distance_formula. apply great_circle_km_real.
Qed.

(** With real arithmetic every two locations have a distance. *)
Lemma measured_real (p q : json) : Contract.measured (F := R) p q.
Proof.
  unfold Contract.measured, Contract.separation.
  cbn [float_of_number real_arithmetic bind math_isnan].
  rewrite great_circle_km_real. eexists. split; reflexivity.
Qed.

(** A point is at distance 0 from itself. *)
Lemma real_great_circle_km_same (lat lon : R) :
  Contract.real_great_circle_km lat lon lat lon = 0%R.
Proof.
  unfold Contract.real_great_circle_km, Contract.haversine_term.
  replace ((lat * (PI / 180) - lat * (PI / 180)) / 2)%R with 0%R by field.
  replace ((lon * (PI / 180) - lon * (PI / 180)) / 2)%R with 0%R by field.
  rewrite sin_0.
  replace (0 ^ 2 + cos (lat * (PI / 180)) * cos (lat * (PI / 180)) * 0 ^ 2)%R
    with 0%R by ring.
  rewrite sqrt_0, asin_0. ring.
Qed.

(** ** Greedy ordering *)

Section Ordering.

Context {F : Type} {arith : Arithmetic F}.

Import Contract.

Lemma located_coordinates (loc : json) :
  located loc = true ->
  exists lat lon,
    Geo.getitem loc "latitude" = Ok lat /\
    Geo.getitem loc "longitude" = Ok lon /\
    Geo.to_float lat = float_of_number (degrees loc "latitude") /\
    Geo.to_float lon = float_of_number (degrees loc "longitude").
Proof.
  destruct loc as [| | | | |fields]; simpl; try discriminate.
  destruct (assoc "latitude" fields) as [lat|]; [|discriminate].
  destruct (assoc "longitude" fields) as [lon|]; [|discriminate].
  intros H. apply andb_prop in H as [Hlat Hlon].
  exists lat, lon. repeat split.
  - destruct lat as [|[|]| | | |]; simpl in *; congruence.
  - destruct lon as [|[|]| | | |]; simpl in *; congruence.
Qed.

Lemma distance_to_located (last loc last_lat last_lon : json) :
  located loc = true ->
  Geo.to_float last_lat = float_of_number (degrees last "latitude") ->
  Geo.to_float last_lon = float_of_number (degrees last "longitude") ->
  Geo.distance_to last_lat last_lon loc
  = (d <- separation last loc ;; Ok (loc, d)).
Proof.
  intros Hloc Hlat Hlon.
  destruct (located_coordinates loc Hloc) as (lat & lon & G1 & G2 & T1 & T2).
  unfold Geo.distance_to, separation. rewrite G1, G2; cbn [bind].
  rewrite Hlat, Hlon, T1, T2.
  destruct (float_of_number (degrees last "latitude")); cbn [bind]; [|reflexivity].
  destruct (float_of_number (degrees last "longitude")); cbn [bind]; [|reflexivity].
  destruct (float_of_number (degrees loc "latitude")); cbn [bind]; [|reflexivity].
  destruct (float_of_number (degrees loc "longitude")); cbn [bind]; [|reflexivity].
  rewrite haversine_distance_formula. reflexivity.
Qed.

Lemma measured_value (p q : json) :
  measured p q ->
  separation p q = Ok (separation_value p q)
  /\ math_isnan (separation_value p q) = false.
Proof.
  intros (d & Hd & Hnan). unfold separation_value. rewrite Hd. auto.
Qed.

Lemma distances_located (last last_lat last_lon : json) (remaining : list json) :
  forallb located remaining = true ->
  Forall (measured last) remaining ->
  Geo.to_float last_lat = float_of_number (degrees last "latitude") ->
  Geo.to_float last_lon = float_of_number (degrees last "longitude") ->
  traverse (Geo.distance_to last_lat last_lon) remaining
  = Ok (map (fun q => (q, separation_value last q)) remaining).
Proof.
  intros Hall Hm Hlat Hlon.
  induction remaining as [|q rest IH]; simpl; [reflexivity|].
  simpl in Hall. apply andb_prop in Hall as [Hq Hrest].
  inversion Hm as [|q' rest' Hmq Hmrest]; subst.
  rewrite (distance_to_located last q last_lat last_lon Hq Hlat Hlon).
  destruct (measured_value last q Hmq) as [Hsep _]. rewrite Hsep; cbn [bind].
  rewrite (IH Hrest Hmrest); cbn [bind]. reflexivity.
Qed.

(** [min] returns the first element of least key: everything before it is
    strictly greater, nothing after it is smaller. *)
Lemma min_from_first_minimal (f : json -> F) (l : list json) :
  forall (before : list json) (best : json) (between : list json),
    Forall (fun q => math_isnan (f q) = false) between ->
    Forall (fun q => math_isnan (f q) = false) l ->
    Forall (fun p => float_lt (f best) (f p) = true) before ->
    Forall (fun q => float_lt (f q) (f best) = false) between ->
    exists before' m after',
      Geo.min_from (best, f best) (map (fun q => (q, f q)) l) = (m, f m) /\
      before ++ best :: between ++ l = before' ++ m :: after' /\
      Forall (fun p => float_lt (f m) (f p) = true) before' /\
      Forall (fun q => float_lt (f q) (f m) = false) after'.
Proof.
  induction l as [|x rest IH];
    intros before best between Hnb Hnl Hbefore Hbetween; simpl.
  - exists before, best, between. rewrite app_nil_r. auto.
  - inversion Hnl as [|x' rest' Hnx Hnrest]; subst.
    destruct (float_lt (f x) (f best)) eqn:Hlt.
    + destruct (IH (before ++ best :: between) x []) as (b' & m & a' & E & S & F1 & F2).
      * constructor.
      * exact Hnrest.
      * apply Forall_app; split; [|constructor].
        -- eapply Forall_impl; [|exact Hbefore]. cbv beta. intros p Hp.
           exact (float_lt_trans _ _ _ Hlt Hp).
        -- exact Hlt.
        -- rewrite Forall_forall in Hnb, Hbetween. apply Forall_forall.
           intros q Hq.
           destruct (float_lt_total (f x) (f best) (f q) (Hnb q Hq) Hlt) as [H|H];
             [exact H|].
           rewrite (Hbetween q Hq) in H. discriminate.
      * constructor.
      * exists b', m, a'. repeat split; try assumption.
        rewrite <- S. simpl. rewrite <- app_assoc. reflexivity.
    + destruct (IH before best (between ++ [x])) as (b' & m & a' & E & S & F1 & F2).
      * apply Forall_app; split; [exact Hnb|]. constructor; [exact Hnx|constructor].
      * exact Hnrest.
      * exact Hbefore.
      * apply Forall_app; split; [exact Hbetween|]. constructor; [exact Hlt|constructor].
      * exists b', m, a'. repeat split; try assumption.
        rewrite <- S. rewrite <- app_assoc. reflexivity.
Qed.

Lemma list_remove_first (x : json) (before after : list json) :
  Forall (fun p => p <> x) before ->
  Geo.list_remove x (before ++ x :: after) = Ok (before ++ after).
Proof.
  induction before as [|p rest IH]; intros H; simpl.
  - unfold json_eqb. destruct (json_eq_dec x x); [reflexivity|congruence].
  - inversion H; subst. unfold json_eqb.
    destruct (json_eq_dec p x); [congruence|].
    rewrite (IH H3). reflexivity.
Qed.

(** One step of the loop: the element chosen and what is left. *)
Lemma closest_to_located (last r : json) (rs : list json) :
  located last = true ->
  forallb located (r :: rs) = true ->
  Forall (measured last) (r :: rs) ->
  exists before next after,
    Geo.closest_to last (r :: rs) = Ok next /\
    Geo.list_remove next (r :: rs) = Ok (before ++ after) /\
    r :: rs = before ++ next :: after /\
    Forall (closer last next) before /\
    Forall (not_farther last next) after.
Proof.
  intros Hlast Hall Hm.
  destruct (located_coordinates last Hlast) as (lat & lon & G1 & G2 & T1 & T2).
  unfold Geo.closest_to. rewrite G1, G2; cbn [bind].
  rewrite (distances_located last lat lon (r :: rs) Hall Hm T1 T2); cbn [bind map].
  cbn [Geo.py_min bind].
  assert (Hnan : Forall (fun q => math_isnan (separation_value last q) = false) (r :: rs)).
  { eapply Forall_impl; [|exact Hm]. intros q Hq. exact (proj2 (measured_value last q Hq)). }
  inversion Hnan as [|r' rs' Hnr Hnrs]; subst.
  destruct (@min_from_first_minimal (separation_value last) rs [] r [])
    as (before & next & after & E & S & F1 & F2);
    [constructor|exact Hnrs|constructor|constructor|].
  simpl in S. rewrite E. cbn [fst].
  assert (Hsep : forall q, In q (r :: rs) ->
                           separation last q = Ok (separation_value last q)).
  { intros q Hq. rewrite Forall_forall in Hm.
    exact (proj1 (measured_value last q (Hm q Hq))). }
  assert (Hnext : In next (r :: rs)).
  { rewrite S. apply in_or_app. right. left. reflexivity. }
  exists before, next, after. repeat split; try assumption.
  - rewrite S. apply list_remove_first.
    eapply Forall_impl; [|exact F1]. cbv beta. intros p Hp Heq. subst p.
    rewrite float_lt_irrefl in Hp. discriminate.
  - apply Forall_forall. intros p Hp.
    exists (separation_value last next), (separation_value last p).
    split; [exact (Hsep next Hnext)|]. split.
    + apply Hsep. rewrite S. apply in_or_app. left. exact Hp.
    + rewrite Forall_forall in F1. exact (F1 p Hp).
  - apply Forall_forall. intros q Hq.
    exists (separation_value last next), (separation_value last q).
    split; [exact (Hsep next Hnext)|]. split.
    + apply Hsep. rewrite S. apply in_or_app. right. right. exact Hq.
    + rewrite Forall_forall in F2. exact (F2 q Hq).
Qed.

Lemma order_loop_step (ordered : list json) (r : json) (rs : list json)
  (next : json) (rest : list json) :
  Geo.closest_to (last ordered JNull) (r :: rs) = Ok next ->
  Geo.list_remove next (r :: rs) = Ok rest ->
  Geo.order_loop ordered (r :: rs) = Geo.order_loop (ordered ++ [next]) rest.
Proof.
  intros Hc Hr. simp order_loop. rewrite Hc. simpl. simpl in Hr. rewrite Hr.
  reflexivity.
Qed.

Lemma order_loop_raise (ordered : list json) (r : json) (rs : list json) (e : exn) :
  Geo.closest_to (last ordered JNull) (r :: rs) = Raise e ->
  Geo.order_loop ordered (r :: rs) = Raise e.
Proof.
  intros Hc. simp order_loop. rewrite Hc. reflexivity.
Qed.

Lemma forallb_split {A : Type} (f : A -> bool) (l1 : list A) (x : A) (l2 : list A) :
  forallb f (l1 ++ x :: l2) = true ->
  f x = true /\ forallb f (l1 ++ l2) = true.
Proof.
  rewrite !forallb_app. simpl. intros H.
  apply andb_prop in H as [H1 H2]. apply andb_prop in H2 as [Hx H2].
  rewrite H1, H2. auto.
Qed.

(** The loop returns, and what it appends is the nearest-neighbour route. *)
Lemma order_loop_route (n : nat) :
  forall ordered remaining,
    List.length remaining = n ->
    located (last ordered JNull) = true ->
    forallb located remaining = true ->
    (forall p q, In p (last ordered JNull :: remaining) -> In q remaining ->
                 measured p q) ->
    exists route,
      Geo.order_loop ordered remaining = Ok (ordered ++ route) /\
      nearest_neighbour_route (last ordered JNull) remaining route.
Proof.
  induction n as [|n IH]; intros ordered remaining Hlen Hlast Hall Hm.
  - destruct remaining; [|discriminate]. exists []. split.
    + simp order_loop. now rewrite app_nil_r.
    + constructor.
  - destruct remaining as [|r rs]; [discriminate|].
    destruct (closest_to_located (last ordered JNull) r rs Hlast Hall)
      as (before & next & after & Hc & Hr & Hsplit & F1 & F2).
    { apply Forall_forall. intros q Hq. apply Hm; [left; reflexivity|exact Hq]. }
    assert (Hsub : forall q, In q (next :: before ++ after) -> In q (r :: rs)).
    { intros q Hq. rewrite Hsplit. apply in_or_app.
      destruct Hq as [<-|Hq]; [right; left; reflexivity|].
      apply in_app_or in Hq as [Hq|Hq]; [left; exact Hq|right; right; exact Hq]. }
    rewrite Hsplit in Hall. apply forallb_split in Hall as [Hnext Hrest].
    destruct (IH (ordered ++ [next]) (before ++ after)) as (route & Hrun & Hroute).
    + assert (Hl : List.length (r :: rs) = List.length (before ++ next :: after))
        by now rewrite Hsplit.
      rewrite length_app in *. simpl in *. lia.
    + now rewrite last_last.
    + exact Hrest.
    + rewrite last_last. intros p q Hp Hq. apply Hm.
      * right. apply Hsub. exact Hp.
      * apply Hsub. right. exact Hq.
    + exists (next :: route). split.
      * rewrite (order_loop_step ordered r rs next (before ++ after) Hc Hr).
        rewrite Hrun, <- app_assoc. reflexivity.
      * rewrite Hsplit. rewrite last_last in Hroute.
        now constructor.
Qed.

Lemma nearest_neighbour_route_permutation (last : json) (remaining route : list json) :
  nearest_neighbour_route last remaining route ->
  Permutation remaining route.
Proof.
  induction 1 as [|last next before after route F1 F2 Hroute IH].
  - constructor.
  - apply Permutation_sym, Permutation_cons_app, Permutation_sym. exact IH.
Qed.

Lemma closer_not_farther (last p q : json) :
  closer last p q -> not_farther last q p -> False.
Proof.
  intros (dp & dq & Hp & Hq & Hlt) (dq' & dp' & Hq' & Hp' & Hge).
  rewrite Hp in Hp'. rewrite Hq in Hq'. inversion Hp'; inversion Hq'; subst.
  rewrite Hlt in Hge. discriminate.
Qed.

Ltac absurd_split :=
  match goal with
  | H : [] = _ ++ _ :: _ |- _ => destruct (app_cons_not_nil _ _ _ H)
  | H : _ ++ _ :: _ = [] |- _ => symmetry in H; destruct (app_cons_not_nil _ _ _ H)
  end.

(** The route is determined by the anchor and the input. *)
Lemma nearest_neighbour_route_unique (last : json) (remaining route1 route2 : list json) :
  nearest_neighbour_route last remaining route1 ->
  nearest_neighbour_route last remaining route2 ->
  route1 = route2.
Proof.
  intros H1. revert route2.
  induction H1 as [|last next before after route F1 F2 Hroute IH]; intros route2 H2.
  - inversion H2; subst; [reflexivity|absurd_split].
  - inversion H2 as [|last' next' before' after' route' G1 G2 Hroute' E1 E2]; subst.
    + absurd_split.
    + assert (Hsame : before' = before /\ next' = next /\ after' = after).
      { clear - F1 F2 G1 G2 E2. revert before E2 F1.
        induction before' as [|p before' IHb]; intros before E2 F1.
        - destruct before as [|q before]; simpl in E2.
          + inversion E2; auto.
          + inversion E2; subst. exfalso.
            apply Forall_app in G2 as [_ G2]. inversion G2; subst.
            inversion F1; subst.
            eapply closer_not_farther; eassumption.
        - destruct before as [|q before]; simpl in E2.
          + inversion E2; subst. exfalso.
            inversion G1; subst.
            apply Forall_app in F2 as [_ F2]. inversion F2; subst.
            eapply closer_not_farther; eassumption.
          + inversion E2; subst. inversion G1; subst. inversion F1; subst.
            destruct (IHb ltac:(assumption) before ltac:(assumption) ltac:(assumption))
              as (-> & -> & ->). auto. }
      destruct Hsame as (-> & -> & ->).
      f_equal. apply IH. exact Hroute'.
Qed.

(** C1. [order_locations_by_distance] returns the empty list for the empty
    list.  For a non-empty list of locations with numeric coordinates, any
    two of which have a distance (the haversine formula of the contract, on a
    sphere of radius 6371 km with the degrees converted to radians, raises
    nothing for them and gives no NaN), it returns a list that starts with
    the first input element and continues with the nearest-neighbour route
    through the rest: each next element is the not-yet-placed input element
    at least distance from the element placed last, the earliest in input
    order on a tie.  That route is the only one, and the output is a
    permutation of the input.  This holds in every arithmetic, that of
    Python's floats included: distances are compared as the program computes
    them. *)
Theorem order_locations_by_distance_contract (locations : list json)
  (Hlocated : forallb located locations = true)
  (Hmeasured : forall p q, In p locations -> In q locations -> measured p q) :
  match locations with
  | [] => Geo.order_locations_by_distance locations = Ok []
  | first :: rest =>
      exists route,
        Geo.order_locations_by_distance locations = Ok (first :: route) /\
        nearest_neighbour_route first rest route /\
        (forall other, nearest_neighbour_route first rest other -> other = route) /\
        Permutation locations (first :: route)
  end.
Proof.
  destruct locations as [|first rest]; [reflexivity|].
  simpl in Hlocated. apply andb_prop in Hlocated as [Hfirst Hrest].
  destruct (order_loop_route (List.length rest) [first] rest eq_refl Hfirst Hrest)
    as (route & Hrun & Hroute).
  { cbn [last]. intros p q Hp Hq. apply Hmeasured; [exact Hp|right; exact Hq]. }
  exists route. simpl in Hrun, Hroute. repeat split.
  - exact Hrun.
  - exact Hroute.
  - intros other Hother.
    exact (nearest_neighbour_route_unique first rest other route Hother Hroute).
  - constructor. exact (nearest_neighbour_route_permutation first rest route Hroute).
Qed.

End Ordering.

Lemma order_locations_by_distance_contract_witness :
  exists route,
    Geo.order_locations_by_distance Samples.MOCK_LOCATIONS
    = Ok (Samples.eiffel_tower :: route) /\
    Contract.nearest_neighbour_route (F := R) Samples.eiffel_tower
      [Samples.berlin; Samples.kyiv] route /\
    (forall other,
        Contract.nearest_neighbour_route Samples.eiffel_tower
          [Samples.berlin; Samples.kyiv] other -> other = route) /\
    Permutation Samples.MOCK_LOCATIONS (Samples.eiffel_tower :: route).
Proof.
  exact (order_locations_by_distance_contract (F := R) Samples.MOCK_LOCATIONS eq_refl
           (fun p q _ _ => measured_real p q)).
Defined.

(** With real arithmetic the loop returns on every list of locations with
    numeric coordinates. *)
Lemma order_loop_route_real (ordered remaining : list json) :
  Contract.located (last ordered JNull) = true ->
  forallb Contract.located remaining = true ->
  exists route,
    Geo.order_loop ordered remaining = Ok (ordered ++ route) /\
    Contract.nearest_neighbour_route (F := R) (last ordered JNull) remaining route.
Proof.
  intros Hlast Hall.
  exact (order_loop_route (List.length remaining) ordered remaining eq_refl Hlast Hall
           (fun p q _ _ => measured_real p q)).
Qed.

(** Ties go to the earlier input element: two records with the same
    coordinates are placed in input order. *)
Example order_locations_by_distance_tie :
  Geo.order_locations_by_distance
    [Samples.berlin; Samples.eiffel_tower; Samples.tour_eiffel]
  = Ok [Samples.berlin; Samples.eiffel_tower; Samples.tour_eiffel]
  /\ Geo.order_locations_by_distance
       [Samples.berlin; Samples.tour_eiffel; Samples.eiffel_tower]
     = Ok [Samples.berlin; Samples.tour_eiffel; Samples.eiffel_tower].
Proof.
  assert (Htie : forall a b,
             Contract.separation (F := R) Samples.berlin a
             = Contract.separation Samples.berlin b ->
             Contract.nearest_neighbour_route (F := R) Samples.berlin [a; b] [a; b]).
  { intros a b Hab.
    destruct (measured_real Samples.berlin a) as (da & Ha & _).
    assert (Hb : Contract.separation (F := R) Samples.berlin b = Ok da)
      by (rewrite <- Hab; exact Ha).
    apply (Contract.route_next Samples.berlin a [] [b] [b]).
    - constructor.
    - constructor; [|constructor].
      exists da, da. split; [exact Ha|]. split; [exact Hb|].
      apply float_lt_irrefl.
    - apply (Contract.route_next a b [] [] []); constructor. }
  assert (Hrun : forall a b,
             Contract.located a = true -> Contract.located b = true ->
             Contract.separation (F := R) Samples.berlin a
             = Contract.separation Samples.berlin b ->
             Geo.order_locations_by_distance [Samples.berlin; a; b]
             = Ok [Samples.berlin; a; b]).
  { intros a b Ha Hb Hab.
    destruct (order_loop_route_real [Samples.berlin] [a; b] eq_refl)
      as (route & Hrun & Hroute).
    - simpl. now rewrite Ha, Hb.
    - simpl in Hrun, Hroute. simpl. rewrite Hrun.
      now rewrite (nearest_neighbour_route_unique _ _ _ _ Hroute (Htie a b Hab)). }
  split; apply Hrun; reflexivity.
Qed.

(** ** The bounded-retry call *)

(** The first [except] clause names a class that is no exception class, so
    whatever is raised in the [try] body leaves the call as the [TypeError]
    of that clause: nothing is caught, no delay is computed and nothing
    sleeps. *)
Lemma handle_raises (attempt : nat) (e : exn) :
  Client.handle attempt e = (Client.Propagate TypeError, []).
Proof. reflexivity. Qed.

Section Retry.

Import Client.

Variable self : client.
Variable num_places : option Z.
Variable api : nat -> api_outcome.

Lemma attempt_body_events (attempt : nat) (wait_time : option Z) (outcome : api_outcome) :
  exists ctl evs,
    attempt_body self num_places attempt wait_time outcome
    = (ctl, Requested (completion_request self) :: evs) /\
    Forall (fun ev => is_request ev = false) evs.
Proof.
  unfold attempt_body. rewrite !handle_raises.
  destruct outcome as [content|e].
  - destruct (too_short num_places content) as [[|]|e].
    + destruct wait_time as [w|].
      * eexists _, _. split; [reflexivity|]. repeat constructor.
      * eexists _, _. split; [reflexivity|constructor].
    + eexists _, _. split; [reflexivity|constructor].
    + rewrite handle_raises. eexists _, _. split; [reflexivity|constructor].
  - rewrite handle_raises. eexists _, _. split; [reflexivity|constructor].
Qed.

Lemma filter_none {A : Type} (f : A -> bool) (l : list A) :
  Forall (fun x => f x = false) l -> filter f l = [].
Proof.
  induction 1 as [|x l Hx _ IH]; simpl; [reflexivity|]. now rewrite Hx.
Qed.

(** One request per attempt, always the same one. *)
Lemma attempts_requests (range : list nat) :
  forall wait_time,
    let trace := snd (attempts self num_places api range wait_time) in
    (List.length (filter is_request trace) <= List.length range)%nat /\
    (forall q, In (Requested q) trace -> q = completion_request self).
Proof.
  induction range as [|attempt rest IH]; intros wait_time; simpl.
  - split; [lia|]. intros q [].
  - destruct (attempt_body_events attempt wait_time (api attempt))
      as (ctl & evs & Hbody & Hevs).
    rewrite Hbody.
    assert (Hin : forall q, In (Requested q) evs -> False).
    { intros q Hq. rewrite Forall_forall in Hevs. specialize (Hevs _ Hq). discriminate. }
    destruct ctl as [wait_time'|value|e].
    + specialize (IH wait_time').
      destruct (attempts self num_places api rest wait_time') as [r evs'].
      simpl in *. destruct IH as [IHn IHq]. split.
      * rewrite filter_app, (filter_none _ _ Hevs). simpl. lia.
      * intros q [Hq|Hq]; [now inversion Hq|].
        apply in_app_or in Hq as [Hq|Hq]; [destruct (Hin q Hq)|now apply IHq].
    + simpl. split.
      * rewrite (filter_none _ _ Hevs). simpl. lia.
      * intros q [Hq|Hq]; [now inversion Hq|destruct (Hin q Hq)].
    + simpl. split.
      * rewrite (filter_none _ _ Hevs). simpl. lia.
      * intros q [Hq|Hq]; [now inversion Hq|destruct (Hin q Hq)].
Qed.

(** While [wait_time] is unbound, the first attempt decides the call: its
    completion is returned when it is long enough, and everything else ends
    the call with [TypeError]. *)
Lemma first_attempt_decides (attempt : nat) (rest : list nat) :
  attempts self num_places api (attempt :: rest) None
  = (match api attempt with
     | Completion content =>
         match too_short num_places content with
         | Ok false => Ok content
         | _ => Raise TypeError
         end
     | ApiRaise _ => Raise TypeError
     end,
     [Requested (completion_request self)]).
Proof.
  cbn [attempts]. unfold attempt_body. rewrite !handle_raises.
  destruct (api attempt) as [content|e]; [|rewrite handle_raises; reflexivity].
  destruct (too_short num_places content) as [[|]|e];
    try rewrite handle_raises; reflexivity.
Qed.

End Retry.

(** C2.  The bounded-retry call never makes a second attempt and never
    sleeps: whatever the API does, its trace is the one request of the first
    attempt (sent with the JSON-object response format at temperature 0.7).
    An exception of the first request, transient or not, is neither retried
    after a delay nor turned into [None]: the call ends with the [TypeError]
    of its first [except] clause.  A completion is returned when it is long
    enough, and ends the call with [TypeError] otherwise. *)
Theorem retry_call_makes_one_attempt (self : Client.client) (num_places : option Z)
  (api : nat -> Client.api_outcome) :
  let run := Client.get_completions_create_response self [num_places] [] api in
  snd run = [Client.Requested (Client.completion_request self)]
  /\ Client.response_format (Client.completion_request self) = "json_object"%string
  /\ Client.temperature (Client.completion_request self) = 7 # 10
  /\ (forall e, api 0%nat = Client.ApiRaise e -> fst run = Raise TypeError)
  /\ (forall content, api 0%nat = Client.Completion content ->
                      fst run = match Client.too_short num_places content with
                                | Ok false => Ok content
                                | _ => Raise TypeError
                                end).
Proof.
  intros run. subst run.
  unfold Client.get_completions_create_response. cbn [Client.bind_num_places].
  unfold Client.max_retries. cbn [seq].
  rewrite first_attempt_decides. cbn [fst snd].
  split; [reflexivity|]. split; [reflexivity|]. split; [reflexivity|]. split.
  - intros e Hapi. rewrite Hapi. reflexivity.
  - intros content Hapi. rewrite Hapi. reflexivity.
Qed.

Lemma retry_call_makes_one_attempt_witness :
  let self := Client.new_client Routes.openai_model by_place in
  snd (Client.get_completions_create_response self [Some 3%Z] []
         (fun _ => Client.ApiRaise RateLimitError))
  = [Client.Requested (Client.completion_request self)]
  /\ fst (Client.get_completions_create_response self [Some 3%Z] []
            (fun _ => Client.ApiRaise RateLimitError))
     = Raise TypeError.
Proof.
  intros self.
  pose proof (retry_call_makes_one_attempt self (Some 3%Z)
                (fun _ => Client.ApiRaise RateLimitError)) as H.
  cbv zeta in H. destruct H as (Htrace & _ & _ & Hraise & _).
  split; [exact Htrace|exact (Hraise RateLimitError eq_refl)].
Defined.

(** C4.  A completion shorter than the hint on the very first attempt does
    not sleep and retry: [wait_time] is still unbound, reading it raises
    [UnboundLocalError] inside the [try], and that exception leaves the call
    as the [TypeError] of the first [except] clause, after the one
    request. *)
Theorem short_first_response_unbound (self : Client.client) (n : Z)
  (p : Client.payload) (api : nat -> Client.api_outcome)
  (Hn : n <> 0%Z)
  (Hshort : (Z.of_nat (char_length (Client.text p)) < n)%Z)
  (Hapi : api 0%nat = Client.Completion (Some p)) :
  Client.attempt_body self (Some n) 0 None (api 0%nat)
  = (fst (Client.handle 0 UnboundLocalError),
     [Client.Requested (Client.completion_request self)])
  /\ Client.get_completions_create_response self [Some n] [] api
     = (Raise TypeError, [Client.Requested (Client.completion_request self)]).
Proof.
  assert (Hlen : Client.too_short (Some n) (Some p) = Ok true).
  { unfold Client.too_short. apply Z.eqb_neq in Hn. rewrite Hn.
    apply Z.ltb_lt in Hshort. rewrite Hshort. reflexivity. }
  split.
  - unfold Client.attempt_body. rewrite Hapi, Hlen. reflexivity.
  - unfold Client.get_completions_create_response. cbn [Client.bind_num_places].
    unfold Client.max_retries. cbn [seq].
    rewrite first_attempt_decides, Hapi, Hlen. reflexivity.
Qed.

Lemma short_first_response_unbound_witness :
  let self := Client.new_client Routes.openai_model by_place in
  Client.get_completions_create_response self [Some 3%Z] []
    (fun _ => Client.Completion
                (Some {| Client.text := "{}"; Client.loads := Some (JObj []) |}))
  = (Raise TypeError, [Client.Requested (Client.completion_request self)]).
Proof.
  intros self.
  refine (proj2 (short_first_response_unbound self 3
                   {| Client.text := "{}"; Client.loads := Some (JObj []) |}
                   _ _ _ _)).
  - discriminate.
  - reflexivity.
  - reflexivity.
Defined.

(** ** The two prediction methods and the conversation *)

Lemma pop_add_message (self : Client.client) (role : string)
  (content : list Client.fragment) :
  Client.pop_message (Client.add_message self role content) = self.
Proof.
  destruct self as [m msgs sp]. unfold Client.pop_message, Client.add_message.
  simpl. now rewrite removelast_last.
Qed.

Lemma length_add_message (self : Client.client) (role : string)
  (content : list Client.fragment) :
  List.length (Client.messages (Client.add_message self role content))
  = S (List.length (Client.messages self)).
Proof.
  unfold Client.add_message. simpl. rewrite length_app. simpl. lia.
Qed.

(** C3.  [get_exlude_locations_prediction] appends its three messages and
    then calls [get_completions_create_response()] without the argument the
    method requires: the call raises [TypeError] before any request is sent,
    so no location list is returned.  The [finally] clause still removes the
    last two messages and leaves the one about the previous trip. *)
Theorem exclusion_prediction_raises (self : Client.client) (previous_trip : Trip)
  (exclude_text : string) (api : nat -> Client.api_outcome) :
  Client.get_exlude_locations_prediction self previous_trip exclude_text api
  = (Raise TypeError,
     Client.add_message self "user"
       [Client.Lit "Previous generated trip was: ";
        Client.Repr (response_json previous_trip)],
     []).
Proof.
  unfold Client.get_exlude_locations_prediction.
  unfold Client.get_completions_create_response. cbn [Client.bind_num_places].
  cbn [bind Client.or_empty].
  rewrite !length_add_message. cbn [Nat.ltb Nat.leb].
  rewrite !pop_add_message. reflexivity.
Qed.

(** What [get_trip_prediction] does to the conversation: on a client that
    already holds a message, the message it appends is removed again. *)
Lemma trip_prediction_messages (self : Client.client) (trip : TripCreateRequest)
  (trip_type : TripTypeEnum) (api : nat -> Client.api_outcome) :
  Client.messages self <> [] ->
  snd (fst (Client.get_trip_prediction self trip trip_type api)) = self.
Proof.
  intros Hne. unfold Client.get_trip_prediction.
  destruct (Client.get_completions_create_response _ _ _ _) as [r trace].
  cbn [fst snd]. rewrite length_add_message.
  destruct (Client.messages self) as [|m ms]; [congruence|].
  cbn [List.length Nat.ltb Nat.leb]. apply pop_add_message.
Qed.

(** What [get_exlude_locations_prediction] does to the conversation: of the
    three messages it appends, the first stays. *)
Lemma exclusion_prediction_messages (self : Client.client) (previous_trip : Trip)
  (exclude_text : string) (api : nat -> Client.api_outcome) :
  snd (fst (Client.get_exlude_locations_prediction self previous_trip exclude_text api))
  = Client.add_message self "user"
      [Client.Lit "Previous generated trip was: ";
       Client.Repr (response_json previous_trip)].
Proof.
  unfold Client.get_exlude_locations_prediction.
  destruct (Client.get_completions_create_response _ _ _ _) as [r trace].
  cbn [fst snd]. rewrite !length_add_message. cbn [Nat.ltb Nat.leb].
  now rewrite !pop_add_message.
Qed.

Lemma after_call_keeps_first (self : Client.client) (c : call) (first : Client.message)
  (rest : list Client.message) :
  Client.messages self = first :: rest ->
  exists rest', Client.messages (after_call self c) = first :: rest'.
Proof.
  intros Hm.
  destruct c as [trip trip_type api|previous_trip exclude_text api]; cbn [after_call].
  - rewrite trip_prediction_messages; [eauto|]. rewrite Hm. discriminate.
  - rewrite exclusion_prediction_messages.
    unfold Client.add_message. simpl. rewrite Hm. simpl. eauto.
Qed.

(** C10.  On one client, after any sequence of [get_trip_prediction] and
    [get_exlude_locations_prediction] calls, the message list is non-empty
    and its first element is the system message chosen at construction. *)
Theorem system_message_stays_first (model : string) (trip_type : TripTypeEnum)
  (calls : list call) :
  exists rest,
    Client.messages (after_calls (Client.new_client model trip_type) calls)
    = system_message trip_type :: rest.
Proof.
  unfold after_calls.
  assert (Hstart : exists rest,
             Client.messages (Client.new_client model trip_type)
             = system_message trip_type :: rest) by (exists []; reflexivity).
  revert Hstart. generalize (Client.new_client model trip_type) as self.
  induction calls as [|c calls IH]; intros self [rest Hm]; simpl.
  - eauto.
  - apply IH. exact (after_call_keeps_first self c _ rest Hm).
Qed.

(** ** Parsing and validation *)

Lemma keyword_binding (n : option Z) :
  Client.bind_num_places [] [("num_places"%string, n)] = Ok n.
Proof. reflexivity. Qed.

(** C7.  Whenever the bounded-retry call returns [None], the prediction does
    not treat it like an empty result: [parse_response(None)] raises
    [TypeError] from [json.loads], nothing catches it, and the create-trip
    route ends in that [TypeError], where an empty result ends in the
    HTTP 400 "No locations generated" failure. *)
Theorem none_response_raises_type_error {F : Type} {arith : Arithmetic F}
  (db : Routes.database) (request_id : Z)
  (trip_data : TripCreateRequest) (trip_type : TripTypeEnum)
  (api : nat -> Client.api_outcome) (self : Client.client)
  (Hnone : fst (Client.get_completions_create_response self []
                  [("num_places"%string, req_num_places trip_data)] api)
           = Ok None) :
  Client.parse_response None = Raise TypeError
  /\ fst (fst (Client.get_trip_prediction
                 (Client.new_client Routes.openai_model trip_type)
                 trip_data trip_type api)) = Raise TypeError
  /\ Routes.create_trip db request_id trip_data trip_type api = Raise TypeError
  /\ Validator.validate_prediction_locations (JArr [])
     = Raise (HTTPException 400 NoLocationsGenerated).
Proof.
  unfold Client.get_completions_create_response in Hnone.
  rewrite keyword_binding in Hnone. unfold Client.max_retries in Hnone.
  cbn [seq] in Hnone. rewrite first_attempt_decides in Hnone. cbn [fst] in Hnone.
  assert (Hpred : forall client,
             fst (fst (Client.get_trip_prediction client trip_data trip_type api))
             = Raise TypeError).
  { intros client. unfold Client.get_trip_prediction.
    unfold Client.get_completions_create_response. rewrite keyword_binding.
    unfold Client.max_retries. cbn [seq]. rewrite first_attempt_decides.
    rewrite Hnone. reflexivity. }
  split; [reflexivity|]. split; [apply Hpred|]. split; [|reflexivity].
  unfold Routes.create_trip.
  specialize (Hpred (Client.new_client Routes.openai_model trip_type)).
  destruct (Client.get_trip_prediction _ _ _ _) as [[prediction self'] trace].
  simpl in Hpred. subst prediction. reflexivity.
Qed.

Lemma none_response_raises_type_error_witness :
  Routes.create_trip Routes.empty_database 1
    {| request_text := "Paris, Berlin and Kyiv"; start_location := None;
       req_num_places := None |}
    several_places (fun _ => Client.Completion None)
  = Raise TypeError.
Proof.
  refine (proj1 (proj2 (proj2 (none_response_raises_type_error Routes.empty_database 1
    {| request_text := "Paris, Berlin and Kyiv"; start_location := None;
       req_num_places := None |}
    several_places (fun _ => Client.Completion None)
    (Client.new_client Routes.openai_model several_places) _)))).
  reflexivity.
Defined.

(** C6 (as amended).  A response that is not valid JSON and a response that
    decodes to zero locations fail in the same way: [parse_response] turns
    both into the empty list, and validation raises the HTTP 400
    "No locations generated" error for it. *)
Theorem unparsable_and_empty_fail_alike {F : Type} {arith : Arithmetic F} (p : Client.payload)
  (Hzero : Client.loads p = None
           \/ Client.loads p = Some (JArr [])
           \/ exists fields, Client.loads p = Some (JObj fields)
                             /\ assoc "locations" fields = Some (JArr [])) :
  Client.parse_response (Some p) = Ok (JArr [])
  /\ validated p = Raise (HTTPException 400 NoLocationsGenerated).
Proof.
  assert (Hparse : Client.parse_response (Some p) = Ok (JArr [])).
  { unfold Client.parse_response, Client.json_loads.
    destruct Hzero as [H|[H|(fields & H & Hkey)]]; rewrite H; cbn [bind].
    - reflexivity.
    - reflexivity.
    - rewrite Hkey. reflexivity. }
  split; [exact Hparse|].
  unfold validated. rewrite Hparse. reflexivity.
Qed.

Lemma unparsable_and_empty_fail_alike_witness :
  Client.parse_response
    (Some {| Client.text := "not json"; Client.loads := None |}) = Ok (JArr [])
  /\ validated {| Client.text := "not json"; Client.loads := None |}
     = Raise (HTTPException 400 NoLocationsGenerated).
Proof.
  exact (unparsable_and_empty_fail_alike
           {| Client.text := "not json"; Client.loads := None |}
           (or_introl eq_refl)).
Defined.

(** C6, as stated, fails: the unparsable text and the empty list end in one
    and the same failure, in validation and at the route. *)
Lemma unparsable_not_distinguished :
  let unparsable := {| Client.text := "not json"; Client.loads := None |} in
  let empty := {| Client.text := "[]"; Client.loads := Some (JArr []) |} in
  let trip := {| request_text := "Paris"; start_location := None;
                 req_num_places := None |} in
  validated unparsable = validated empty
  /\ validated unparsable = Raise (HTTPException 400 NoLocationsGenerated)
  /\ Routes.create_trip Routes.empty_database 1 trip several_places
       (fun _ => Client.Completion (Some unparsable))
     = Routes.create_trip Routes.empty_database 1 trip several_places
         (fun _ => Client.Completion (Some empty)).
Proof.
  repeat split.
Qed.

(** C8.  For a list [L] of location objects, a response decoding to
    [{"locations": L}] and one decoding to the bare list [L] are parsed to the
    same list [L]; when [L] has exactly one element, so is a response decoding
    to that single object. *)
Theorem accepted_shapes_agree (L : list json) (t1 t2 t3 : string)
  (Hobjects : forallb is_location_object L = true) :
  Client.parse_response
    (Some {| Client.text := t1;
             Client.loads := Some (JObj [("locations"%string, JArr L)]) |})
  = Ok (JArr L)
  /\ Client.parse_response
       (Some {| Client.text := t2; Client.loads := Some (JArr L) |})
     = Ok (JArr L)
  /\ match L with
     | [single] =>
         Client.parse_response
           (Some {| Client.text := t3; Client.loads := Some single |})
         = Ok (JArr L)
     | _ => True
     end.
Proof.
  split; [reflexivity|]. split; [reflexivity|].
  destruct L as [|single [|second rest]]; try exact I.
  simpl in Hobjects. rewrite andb_true_r in Hobjects.
  destruct single as [| | | | |fields]; simpl in Hobjects; try discriminate.
  unfold Client.parse_response, Client.json_loads. cbn [Client.loads bind].
  destruct (assoc "locations" fields); [discriminate|]. reflexivity.
Qed.

Lemma accepted_shapes_agree_witness :
  Client.parse_response
    (Some {| Client.text := "wrapped";
             Client.loads :=
               Some (JObj [("locations"%string, JArr [Samples.eiffel_tower])]) |})
  = Ok (JArr [Samples.eiffel_tower])
  /\ Client.parse_response
       (Some {| Client.text := "bare";
                Client.loads := Some (JArr [Samples.eiffel_tower]) |})
     = Ok (JArr [Samples.eiffel_tower])
  /\ Client.parse_response
       (Some {| Client.text := "single"; Client.loads := Some Samples.eiffel_tower |})
     = Ok (JArr [Samples.eiffel_tower]).
Proof.
  exact (accepted_shapes_agree [Samples.eiffel_tower] "wrapped" "bare" "single" eq_refl).
Defined.

(** ** Ordering of arbitrary input, and validation *)

Lemma list_remove_permutation (x : json) (l l' : list json) :
  Geo.list_remove x l = Ok l' -> Permutation l (x :: l').
Proof.
  revert l'; induction l as [|y rest IH]; simpl; intros l' H; [discriminate|].
  unfold json_eqb in H. destruct (json_eq_dec y x) as [->|Hne].
  - inversion H; subst. reflexivity.
  - destruct (Geo.list_remove x rest) as [r|e]; simpl in H; [|discriminate].
    inversion H; subst. rewrite (IH r eq_refl). apply perm_swap.
Qed.

Lemma order_loop_remove_raise {F : Type} {arith : Arithmetic F}
  (ordered : list json) (r : json) (rs : list json)
  (next : json) (e : exn) :
  Geo.closest_to (last ordered JNull) (r :: rs) = Ok next ->
  Geo.list_remove next (r :: rs) = Raise e ->
  Geo.order_loop ordered (r :: rs) = Raise e.
Proof.
  intros Hc Hr. simp order_loop. rewrite Hc. simpl. simpl in Hr. rewrite Hr.
  reflexivity.
Qed.

(** Whatever the input, a list that the loop returns is the list placed so
    far followed by a permutation of what remained. *)
Lemma order_loop_permutation {F : Type} {arith : Arithmetic F} (n : nat) :
  forall ordered remaining out,
    List.length remaining = n ->
    Geo.order_loop ordered remaining = Ok out ->
    exists route, out = ordered ++ route /\ Permutation remaining route.
Proof.
  induction n as [|n IH]; intros ordered remaining out Hlen Hrun.
  - destruct remaining; [|discriminate]. simp order_loop in Hrun.
    inversion Hrun; subst. exists []. now rewrite app_nil_r.
  - destruct remaining as [|r rs]; [discriminate|].
    destruct (Geo.closest_to (last ordered JNull) (r :: rs)) as [next|e] eqn:Hc.
    + destruct (Geo.list_remove next (r :: rs)) as [rest|e] eqn:Hr.
      * rewrite (order_loop_step ordered r rs next rest Hc Hr) in Hrun.
        pose proof (Geo.list_remove_length next (r :: rs) rest Hr) as Hl.
        destruct (IH (ordered ++ [next]) rest out) as (route & Hout & Hperm);
          [simpl in *; lia|exact Hrun|].
        exists (next :: route). split.
        -- now rewrite Hout, <- app_assoc.
        -- rewrite (list_remove_permutation next (r :: rs) rest Hr).
           now constructor.
      * rewrite (order_loop_remove_raise ordered r rs next e Hc Hr) in Hrun.
        discriminate.
    + rewrite (order_loop_raise ordered r rs e Hc) in Hrun. discriminate.
Qed.

Lemma order_locations_permutation {F : Type} {arith : Arithmetic F}
  (locations ordered : list json) :
  Geo.order_locations_by_distance locations = Ok ordered ->
  Permutation locations ordered.
Proof.
  destruct locations as [|first rest]; simpl; intros H.
  - inversion H. constructor.
  - destruct (order_loop_permutation (List.length rest) [first] rest ordered eq_refl H)
      as (route & -> & Hperm).
    simpl. now constructor.
Qed.

Lemma traverse_length {A B : Type} (f : A -> result B) (l : list A) (l' : list B) :
  traverse f l = Ok l' -> List.length l' = List.length l.
Proof.
  revert l'; induction l as [|x rest IH]; simpl; intros l' H.
  - inversion H. reflexivity.
  - destruct (f x) as [y|e]; simpl in H; [|discriminate].
    destruct (traverse f rest) as [ys|e]; simpl in H; [|discriminate].
    inversion H; subst. simpl. now rewrite (IH ys eq_refl).
Qed.

(** Validation succeeds only on a list, with one record per element. *)
Lemma validate_ok_list {F : Type} {arith : Arithmetic F}
  (prediction : json) (locations_list : list Schemas.LocationCreate) :
  Validator.validate_prediction_locations prediction = Ok locations_list ->
  exists items,
    prediction = JArr items /\ List.length locations_list = List.length items.
Proof.
  unfold Validator.validate_prediction_locations.
  destruct (negb (truthy prediction)); [discriminate|].
  destruct prediction as [| | | |items|]; try discriminate.
  destruct (Geo.order_locations_by_distance items) as [ordered|e] eqn:Hord;
    cbn [bind]; [|discriminate].
  destruct (traverse Schemas.LocationCreate_new ordered) as [ls|e] eqn:Htr.
  - intros H. inversion H; subst. exists items. split; [reflexivity|].
    rewrite (traverse_length _ _ _ Htr).
    symmetry. apply Permutation_length. exact (order_locations_permutation _ _ Hord).
  - destruct e; discriminate.
Qed.

(** Two located records are returned in input order. *)
Lemma order_pair (a b : json) :
  Contract.located a = true -> Contract.located b = true ->
  Geo.order_locations_by_distance [a; b] = Ok [a; b].
Proof.
  intros Ha Hb.
  destruct (order_loop_route_real [a] [b] Ha) as (route & Hrun & Hroute).
  - simpl. now rewrite Hb.
  - simpl. rewrite Hrun.
    apply nearest_neighbour_route_permutation in Hroute.
    apply Permutation_length_1_inv in Hroute. now subst route.
Qed.

(** When promotion fails, the error shows element 0 of the input. *)
Lemma invalid_batch_shows_first {F : Type} {arith : Arithmetic F}
  (first : json) (rest ordered : list json) :
  Geo.order_locations_by_distance (first :: rest) = Ok ordered ->
  traverse Schemas.LocationCreate_new ordered = Raise ValidationError ->
  Validator.validate_prediction_locations (JArr (first :: rest))
  = Raise (HTTPException 400 (InvalidLocationData first)).
Proof.
  intros Hord Htr. unfold Validator.validate_prediction_locations.
  cbn [truthy negb]. rewrite Hord. cbn [bind]. rewrite Htr. reflexivity.
Qed.

(** C5.  A batch of the valid Eiffel Tower record followed by a record with
    [latitude = 200] is rejected as a whole, but the error carries the Eiffel
    Tower record, element 0 of the input, not the offending record.  A record
    without [latitude] in a batch of two is not reported as invalid location
    data at all: the ordering raises [KeyError] before validation. *)
Theorem invalid_batch_reports_first_element :
  (exists valid, Schemas.LocationCreate_new Samples.eiffel_tower = Ok valid)
  /\ Schemas.LocationCreate_new Samples.latitude_200 = Raise ValidationError
  /\ Validator.validate_prediction_locations
       (JArr [Samples.eiffel_tower; Samples.latitude_200])
     = Raise (HTTPException 400 (InvalidLocationData Samples.eiffel_tower))
  /\ Schemas.LocationCreate_new Samples.no_latitude = Raise ValidationError
  /\ Validator.validate_prediction_locations
       (JArr [Samples.eiffel_tower; Samples.no_latitude])
     = Raise KeyError.
Proof.
  split; [eexists; reflexivity|]. split; [reflexivity|]. split; [|split].
  - apply (invalid_batch_shows_first _ _ [Samples.eiffel_tower; Samples.latitude_200]).
    + apply order_pair; reflexivity.
    + reflexivity.
  - reflexivity.
  - unfold Validator.validate_prediction_locations. cbn [truthy negb].
    unfold Geo.order_locations_by_distance.
    rewrite (order_loop_raise [Samples.eiffel_tower] Samples.no_latitude [] KeyError);
      reflexivity.
Qed.

(** ** Storing a trip *)

Lemma assign_order_trip_id (trip_id i : Z) (locations_data : list Schemas.LocationCreate) :
  Forall (fun d => Schemas.trip_id d = Some trip_id)
         (Routes.assign_order trip_id i locations_data)
  /\ List.length (Routes.assign_order trip_id i locations_data)
     = List.length locations_data.
Proof.
  revert i; induction locations_data as [|d rest IH]; intros i; simpl.
  - split; [constructor|reflexivity].
  - destruct (IH (i + 1)%Z) as [Hall Hlen]. split.
    + constructor; [reflexivity|exact Hall].
    + now rewrite Hlen.
Qed.

(** The position of each record is its 1-based [order]. *)
Lemma assign_order_positions (trip_id i : Z) (locations_data : list Schemas.LocationCreate) :
  map Schemas.order (Routes.assign_order trip_id i locations_data)
  = map (fun k => Some (i + 1 + Z.of_nat k)%Z) (seq 0 (List.length locations_data)).
Proof.
  revert i; induction locations_data as [|d rest IH]; intros i; simpl; [reflexivity|].
  rewrite IH, <- seq_shift, map_map. f_equal.
  - f_equal. lia.
  - apply map_ext. intros k. f_equal. lia.
Qed.

Lemma bulk_create_locations_rows (locations_data : list Schemas.LocationCreate) :
  forall db db' created,
    Routes.bulk_create_locations db locations_data = (db', created) ->
    Routes.trips db' = Routes.trips db
    /\ Routes.locations db' = Routes.locations db ++ created
    /\ map Routes.data created = locations_data.
Proof.
  induction locations_data as [|d rest IH]; intros db db' created H; simpl in H.
  - inversion H; subst. now rewrite app_nil_r.
  - destruct (Routes.bulk_create_locations _ rest) as [db2 created2] eqn:Hb.
    inversion H; subst. destruct (IH _ _ _ Hb) as (Ht & Hl & Hd).
    simpl in Ht, Hl. repeat split.
    + exact Ht.
    + rewrite Hl, <- app_assoc. reflexivity.
    + simpl. now rewrite Hd.
Qed.

Lemma find_fresh_trip (rows : list Trip) (t : Trip) :
  Forall (fun r => (id r < id t)%Z) rows ->
  find (fun r => (id r =? id t)%Z) (rows ++ [t]) = Some t.
Proof.
  induction 1 as [|r rows Hr _ IH]; simpl.
  - now rewrite Z.eqb_refl.
  - destruct (Z.eqb_spec (id r) (id t)); [lia|exact IH].
Qed.

Lemma filter_fresh_trip (rows created : list Routes.Location) (trip_id : Z) :
  Forall (fun l => match Schemas.trip_id (Routes.data l) with
                   | Some t => (t < trip_id)%Z
                   | None => True
                   end) rows ->
  Forall (fun d => Schemas.trip_id d = Some trip_id) (map Routes.data created) ->
  filter (fun l => match Schemas.trip_id (Routes.data l) with
                   | Some t => (t =? trip_id)%Z
                   | None => false
                   end) (rows ++ created) = created.
Proof.
  intros Hrows Hcreated. rewrite filter_app.
  assert (Hnone : filter (fun l => match Schemas.trip_id (Routes.data l) with
                                   | Some t => (t =? trip_id)%Z
                                   | None => false
                                   end) rows = []).
  { induction Hrows as [|l rows Hl _ IH]; simpl; [reflexivity|].
    destruct (Schemas.trip_id (Routes.data l)) as [t|]; [|exact IH].
    destruct (Z.eqb_spec t trip_id); [lia|exact IH]. }
  rewrite Hnone. simpl.
  induction created as [|l created IH]; simpl; [reflexivity|].
  inversion Hcreated as [|d ds Hd Hds]; subst.
  rewrite Hd, Z.eqb_refl. f_equal. exact (IH Hds).
Qed.

(** What [store_trip] stores when it succeeds. *)
Lemma store_trip_invariant {F : Type} {arith : Arithmetic F}
  (db db' : Routes.database) (request_id : Z)
  (parent : option Z) (kind : TripTypeEnum) (prediction : json)
  (attempt : Routes.TripAttempt) :
  Routes.references_ok db ->
  Routes.store_trip db request_id parent kind prediction = Ok (db', attempt) ->
  exists items,
    prediction = JArr items
    /\ response_json (Routes.stored attempt) = JArr items
    /\ num_places (Routes.stored attempt) = Some (Z.of_nat (List.length items))
    /\ List.length (Routes.persisted attempt) = List.length items
    /\ parent_id (Routes.stored attempt) = parent
    /\ map (fun l => Schemas.order (Routes.data l)) (Routes.persisted attempt)
       = map (fun k => Some (1 + Z.of_nat k)%Z) (seq 0 (List.length items)).
Proof.
  intros Hok Hstore.
  unfold Routes.store_trip in Hstore.
  destruct (Validator.validate_prediction_locations prediction)
    as [locations_list|e] eqn:Hv; cbn [bind] in Hstore; [|discriminate].
  destruct (validate_ok_list prediction locations_list Hv) as (items & -> & Hlen).
  exists items. cbn [Client.py_len bind] in Hstore.
  unfold Routes.TripCreate_new in Hstore.
  destruct (forallb Routes.is_dict items); cbn [bind] in Hstore; [|discriminate].
  unfold Routes.TripService_create_trip in Hstore.
  set (trip := {| id := Routes.next_id (Routes.trips db); request_id := request_id;
                  parent_id := parent; response_json := JArr items;
                  num_places := Some (Z.of_nat (List.length items));
                  trip_type := kind |}) in Hstore.
  unfold Routes.create_locations_for_trip in Hstore.
  destruct (id trip =? 0)%Z; cbn [bind] in Hstore; [discriminate|].
  destruct (Routes.bulk_create_locations _ _) as [db2 created] eqn:Hb.
  destruct (bulk_create_locations_rows _ _ _ _ Hb) as (Ht & Hl & Hd).
  cbn [Routes.trips Routes.locations] in Ht, Hl.
  destruct Hok as [Hlocs Htrips].
  unfold Routes.get_trip in Hstore. rewrite Ht in Hstore.
  rewrite (find_fresh_trip (Routes.trips db) trip Htrips) in Hstore.
  inversion Hstore; subst db' attempt. cbn [Routes.stored Routes.persisted].
  destruct (assign_order_trip_id (id trip) 0 locations_list) as [Hall Hlen'].
  unfold Routes.trip_locations. rewrite Hl.
  rewrite (filter_fresh_trip (Routes.locations db) created
             (Routes.next_id (Routes.trips db)) Hlocs)
    by (rewrite Hd; exact Hall).
  repeat split.
  - rewrite <- (length_map Routes.data), Hd, Hlen'. exact Hlen.
  - rewrite <- (map_map Routes.data Schemas.order), Hd, assign_order_positions, Hlen.
    apply map_ext. intros k. reflexivity.
Qed.

(** C9.  A trip stored by the pipeline, fresh ([parent_id = None]) or as a
    refinement ([parent_id = Some previous]), has a list as its stored
    payload, and its [num_places], the number of its persisted locations and
    the length of that payload are equal. *)
Theorem stored_trip_counts {F : Type} {arith : Arithmetic F}
  (db db' : Routes.database) (request_id : Z)
  (parent : option Z) (kind : TripTypeEnum) (prediction : json)
  (attempt : Routes.TripAttempt)
  (Hok : Routes.references_ok db)
  (Hstore : Routes.store_trip db request_id parent kind prediction = Ok (db', attempt)) :
  exists items,
    prediction = JArr items
    /\ response_json (Routes.stored attempt) = JArr items
    /\ num_places (Routes.stored attempt) = Some (Z.of_nat (List.length items))
    /\ List.length (Routes.persisted attempt) = List.length items
    /\ parent_id (Routes.stored attempt) = parent
    /\ map (fun l => Schemas.order (Routes.data l)) (Routes.persisted attempt)
       = map (fun k => Some (1 + Z.of_nat k)%Z) (seq 0 (List.length items)).
Proof.
  exact (store_trip_invariant db db' request_id parent kind prediction attempt
           Hok Hstore).
Qed.

Lemma stored_trip_counts_witness :
  exists db' attempt,
    Routes.store_trip Routes.empty_database 1 None several_places
      (JArr [Samples.eiffel_tower; Samples.berlin]) = Ok (db', attempt)
    /\ response_json (Routes.stored attempt)
       = JArr [Samples.eiffel_tower; Samples.berlin]
    /\ num_places (Routes.stored attempt) = Some 2%Z
    /\ List.length (Routes.persisted attempt) = 2%nat.
Proof.
  assert (Hrun : exists db' attempt,
             Routes.store_trip Routes.empty_database 1 None several_places
               (JArr [Samples.eiffel_tower; Samples.berlin]) = Ok (db', attempt)).
  { unfold Routes.store_trip, Validator.validate_prediction_locations.
    cbn [truthy negb]. rewrite order_pair by reflexivity.
    eexists. eexists. reflexivity. }
  destruct Hrun as (db' & attempt & Hrun).
  exists db', attempt. split; [exact Hrun|].
  destruct (stored_trip_counts Routes.empty_database db' 1 None several_places
              (JArr [Samples.eiffel_tower; Samples.berlin]) attempt
              (conj (Forall_nil _) (Forall_nil _)) Hrun)
    as (items & Hitems & Hjson & Hnum & Hlen & _).
  inversion Hitems; subst items. auto.
Defined.

(** The create-trip route stores such a trip, with no parent. *)
Lemma create_trip_counts {F : Type} {arith : Arithmetic F}
  (db db' : Routes.database) (request_id : Z)
  (trip_data : TripCreateRequest) (kind : TripTypeEnum)
  (api : nat -> Client.api_outcome) (attempt : Routes.TripAttempt) :
  Routes.references_ok db ->
  Routes.create_trip db request_id trip_data kind api = Ok (db', attempt) ->
  exists items,
    response_json (Routes.stored attempt) = JArr items
    /\ num_places (Routes.stored attempt) = Some (Z.of_nat (List.length items))
    /\ List.length (Routes.persisted attempt) = List.length items
    /\ parent_id (Routes.stored attempt) = None.
Proof.
  intros Hok Hrun. unfold Routes.create_trip in Hrun.
  destruct (Client.get_trip_prediction _ _ _ _) as [[[prediction|e] self'] trace];
    cbn [bind] in Hrun; [|discriminate].
  destruct (store_trip_invariant _ _ _ _ _ _ _ Hok Hrun)
    as (items & _ & Hjson & Hnum & Hlen & Hparent & _).
  exists items. auto.
Qed.

(** The exclusion route never gets as far as storing a trip: the prediction
    it starts with always raises. *)
Lemma exclusion_route_never_stores {F : Type} {arith : Arithmetic F}
  (db : Routes.database) (request_id current : Z)
  (exclude_text : string) (api : nat -> Client.api_outcome) :
  exists e, Routes.exclude_locations_from_trip db request_id current exclude_text api
            = Raise e.
Proof.
  unfold Routes.exclude_locations_from_trip.
  destruct (Routes.get_trip_by_request_id db request_id) as [[previous|]|e];
    cbn [bind]; eauto.
  unfold Client.get_exlude_locations_prediction.
  unfold Client.get_completions_create_response. cbn [Client.bind_num_places].
  cbn [bind Client.or_empty]. eauto.
Qed.

(** X16.  Storing a trip keeps the database well-formed, so every database reached
    from the empty one is. *)
Lemma store_trip_references {F : Type} {arith : Arithmetic F}
  (db db' : Routes.database) (request_id : Z)
  (parent : option Z) (kind : TripTypeEnum) (prediction : json)
  (attempt : Routes.TripAttempt) :
  Routes.references_ok db ->
  Routes.store_trip db request_id parent kind prediction = Ok (db', attempt) ->
  Routes.references_ok db'.
Proof.
  intros [Hlocs Htrips] Hstore. unfold Routes.store_trip in Hstore.
  destruct (Validator.validate_prediction_locations prediction)
    as [locations_list|e]; cbn [bind] in Hstore; [|discriminate].
  destruct (Client.py_len prediction) as [n|e]; cbn [bind] in Hstore; [|discriminate].
  destruct (Routes.TripCreate_new request_id parent prediction n kind)
    as [trip_data|e] eqn:Hnew; cbn [bind] in Hstore; [|discriminate].
  unfold Routes.TripCreate_new in Hnew.
  destruct (match prediction with
            | JNull | JObj _ => true
            | JArr items => forallb Routes.is_dict items
            | _ => false
            end); [|discriminate].
  inversion Hnew; subst trip_data; clear Hnew.
  unfold Routes.TripService_create_trip in Hstore. cbn [id] in Hstore.
  unfold Routes.create_locations_for_trip in Hstore.
  destruct (Routes.next_id (Routes.trips db) =? 0)%Z; cbn [bind] in Hstore;
    [discriminate|].
  destruct (Routes.bulk_create_locations _ _) as [db2 created] eqn:Hb.
  destruct (bulk_create_locations_rows _ _ _ _ Hb) as (Ht & Hl & Hd).
  cbn [Routes.trips Routes.locations] in Ht, Hl.
  destruct (Routes.get_trip db2 _); [|discriminate].
  inversion Hstore; subst db' attempt.
  assert (Hnext : Routes.next_id (Routes.trips db2)
                  = (Routes.next_id (Routes.trips db) + 1)%Z).
  { rewrite Ht. unfold Routes.next_id. rewrite length_app. simpl. lia. }
  destruct (assign_order_trip_id (Routes.next_id (Routes.trips db)) 0 locations_list)
    as [Hall _].
  rewrite <- Hd in Hall. split.
  - rewrite Hl, Hnext. apply Forall_app. split.
    + eapply Forall_impl; [|exact Hlocs]. intros l Hlt. cbv beta in Hlt |- *.
      destruct (Schemas.trip_id (Routes.data l)); [lia|exact I].
    + clear - Hall. induction created as [|l created IH]; [constructor|].
      simpl in Hall. inversion Hall as [|d ds Hd' Hds]; subst. constructor.
      * cbv beta. rewrite Hd'. lia.
      * exact (IH Hds).
  - rewrite Hnext, Ht. apply Forall_app. split.
    + eapply Forall_impl; [|exact Htrips]. intros row Hlt. cbv beta in Hlt |- *. lia.
    + constructor; [cbn [id]; lia|constructor].
Qed.

(** * Further properties *)

(** ** Distance *)

Lemma haversine_term_symmetric (lat1 lon1 lat2 lon2 : R) :
  Contract.haversine_term lat1 lon1 lat2 lon2
  = Contract.haversine_term lat2 lon2 lat1 lon1.
Proof.
  unfold Contract.haversine_term.
  replace ((lat1 * (PI / 180) - lat2 * (PI / 180)) / 2)%R
    with (- ((lat2 * (PI / 180) - lat1 * (PI / 180)) / 2))%R by field.
  replace ((lon1 * (PI / 180) - lon2 * (PI / 180)) / 2)%R
    with (- ((lon2 * (PI / 180) - lon1 * (PI / 180)) / 2))%R by field.
  rewrite !sin_neg. ring.
Qed.

(** X1.  The distance does not depend on the direction of travel. *)
Theorem haversine_distance_symmetric (lat1 lon1 lat2 lon2 : R) :
  Geo.haversine_distance lat1 lon1 lat2 lon2
  = Geo.haversine_distance lat2 lon2 lat1 lon1.
Proof.
  rewrite !haversine_distance_real. unfold Contract.real_great_circle_km.
  now rewrite haversine_term_symmetric.
Qed.

(** X2.  A point is at distance 0 from itself, whatever its coordinates. *)
Theorem haversine_distance_same_point (lat lon : R) :
  Geo.haversine_distance lat lon lat lon = Ok 0%R.
Proof.
  rewrite haversine_distance_real. now rewrite real_great_circle_km_same.
Qed.

(** ** Ordering of raw input *)

(** X4.  On any input, a list that [order_locations_by_distance] returns starts
    with the first input element, has the length of the input and is a
    permutation of it: nothing is dropped or repeated. *)
Theorem order_returns_rearrangement {F : Type} {arith : Arithmetic F}
  (locations ordered : list json)
  (Hrun : Geo.order_locations_by_distance locations = Ok ordered) :
  Permutation locations ordered
  /\ List.length ordered = List.length locations
  /\ hd_error ordered = hd_error locations.
Proof.
  pose proof (order_locations_permutation locations ordered Hrun) as Hperm.
  split; [exact Hperm|]. split.
  - symmetry. now apply Permutation_length.
  - destruct locations as [|first rest]; simpl in Hrun.
    + now inversion Hrun.
    + destruct (order_loop_permutation (List.length rest) [first] rest ordered
                  eq_refl Hrun) as (route & -> & _).
      reflexivity.
Qed.

Lemma order_returns_rearrangement_witness :
  Geo.order_locations_by_distance [Samples.eiffel_tower; Samples.berlin]
  = Ok [Samples.eiffel_tower; Samples.berlin]
  /\ Permutation [Samples.eiffel_tower; Samples.berlin]
                 [Samples.eiffel_tower; Samples.berlin]
  /\ List.length [Samples.eiffel_tower; Samples.berlin]
     = List.length [Samples.eiffel_tower; Samples.berlin]
  /\ hd_error [Samples.eiffel_tower; Samples.berlin]
     = hd_error [Samples.eiffel_tower; Samples.berlin].
Proof.
  split.
  - exact (order_pair Samples.eiffel_tower Samples.berlin eq_refl eq_refl).
  - exact (order_returns_rearrangement
             [Samples.eiffel_tower; Samples.berlin]
             [Samples.eiffel_tower; Samples.berlin]
             (order_pair Samples.eiffel_tower Samples.berlin eq_refl eq_refl)).
Defined.

Section RawInput.

Context {F : Type} {arith : Arithmetic F}.

Lemma getitem_raises (loc : json) (key : string) (e : exn) :
  Geo.getitem loc key = Raise e -> e = KeyError \/ e = TypeError.
Proof.
  unfold Geo.getitem. destruct loc; try (intros H; inversion H; auto).
  destruct (assoc key fields); inversion H; auto.
Qed.

(** A coordinate that was found is a number, which is converted as the
    contract converts it, or anything else, which is a [TypeError]. *)
Lemma to_float_degrees (loc : json) (key : string) (v : json) :
  Geo.getitem loc key = Ok v ->
  Geo.to_float v = Raise TypeError
  \/ Geo.to_float v = float_of_number (Contract.degrees loc key).
Proof.
  unfold Geo.getitem, Contract.degrees.
  destruct loc as [| | | | |fields]; try discriminate.
  destruct (assoc key fields) as [v'|]; [|discriminate].
  intros H; inversion H; subst v'.
  destruct v as [|[|]| | | |]; simpl; auto.
Qed.

Lemma distance_to_outcome (last loc last_lat last_lon : json) :
  Geo.getitem last "latitude" = Ok last_lat ->
  Geo.getitem last "longitude" = Ok last_lon ->
  match Geo.distance_to last_lat last_lon loc with
  | Ok (q, _) => q = loc
  | Raise e =>
      e = KeyError \/ e = TypeError \/ Contract.separation last loc = Raise e
  end.
Proof.
  intros L1 L2. unfold Geo.distance_to.
  destruct (Geo.getitem loc "latitude") as [lat|e] eqn:G1; cbn [bind].
  2:{ destruct (getitem_raises _ _ _ G1); auto. }
  destruct (Geo.getitem loc "longitude") as [lon|e] eqn:G2; cbn [bind].
  2:{ destruct (getitem_raises _ _ _ G2); auto. }
  unfold Contract.separation.
  destruct (to_float_degrees last "latitude" last_lat L1) as [T|T]; rewrite T;
    cbn [bind]; [auto|].
  destruct (float_of_number (Contract.degrees last "latitude")) as [x1|e];
    cbn [bind]; [|auto].
  destruct (to_float_degrees last "longitude" last_lon L2) as [T'|T']; rewrite T';
    cbn [bind]; [auto|].
  destruct (float_of_number (Contract.degrees last "longitude")) as [y1|e];
    cbn [bind]; [|auto].
  destruct (to_float_degrees loc "latitude" lat G1) as [U|U]; rewrite U;
    cbn [bind]; [auto|].
  destruct (float_of_number (Contract.degrees loc "latitude")) as [x2|e];
    cbn [bind]; [|auto].
  destruct (to_float_degrees loc "longitude" lon G2) as [U'|U']; rewrite U';
    cbn [bind]; [auto|].
  destruct (float_of_number (Contract.degrees loc "longitude")) as [y2|e];
    cbn [bind]; [|auto].
  rewrite haversine_distance_formula.
  destruct (Contract.great_circle_km x1 y1 x2 y2) as [d|e]; cbn [bind]; auto.
Qed.

Lemma distances_outcome (last last_lat last_lon : json) (remaining : list json) :
  Geo.getitem last "latitude" = Ok last_lat ->
  Geo.getitem last "longitude" = Ok last_lon ->
  match traverse (Geo.distance_to last_lat last_lon) remaining with
  | Ok distances => map fst distances = remaining
  | Raise e =>
      e = KeyError \/ e = TypeError
      \/ exists q, In q remaining /\ Contract.separation last q = Raise e
  end.
Proof.
  intros L1 L2.
  induction remaining as [|loc rest IH]; simpl; [reflexivity|].
  pose proof (distance_to_outcome last loc last_lat last_lon L1 L2) as Hd.
  destruct (Geo.distance_to last_lat last_lon loc) as [[q d]|e]; cbn [bind].
  - destruct (traverse (Geo.distance_to last_lat last_lon) rest) as [ds|e];
      cbn [bind].
    + simpl. now rewrite Hd, IH.
    + destruct IH as [H|[H|(q' & Hin & Hq')]]; auto.
      right. right. exists q'. auto.
  - destruct Hd as [H|[H|H]]; auto.
    right. right. exists loc. auto.
Qed.

Lemma min_from_in (best : json * F) (l : list (json * F)) :
  In (Geo.min_from best l) (best :: l).
Proof.
  revert best; induction l as [|x rest IH]; intros best; simpl; [auto|].
  destruct (IH (if float_lt (snd x) (snd best) then x else best)) as [H|H].
  - destruct (float_lt (snd x) (snd best)); rewrite <- H; auto.
  - auto.
Qed.

(** What one step of the loop can do on arbitrary input: pick an element of
    what remains, fail on a missing or non-numeric coordinate, or fail in
    the computation of a distance. *)
Lemma closest_to_outcome (last r : json) (rs : list json) :
  match Geo.closest_to last (r :: rs) with
  | Ok next => In next (r :: rs)
  | Raise e =>
      e = KeyError \/ e = TypeError
      \/ exists q, In q (r :: rs) /\ Contract.separation last q = Raise e
  end.
Proof.
  unfold Geo.closest_to.
  destruct (Geo.getitem last "latitude") as [lat|e] eqn:G1; cbn [bind].
  2:{ destruct (getitem_raises _ _ _ G1); auto. }
  destruct (Geo.getitem last "longitude") as [lon|e] eqn:G2; cbn [bind].
  2:{ destruct (getitem_raises _ _ _ G2); auto. }
  pose proof (distances_outcome last lat lon (r :: rs) G1 G2) as Hd.
  destruct (traverse (Geo.distance_to lat lon) (r :: rs)) as [ds|e]; cbn [bind];
    [|exact Hd].
  destruct ds as [|d ds]; [discriminate|]. cbn [Geo.py_min bind].
  rewrite <- Hd. apply in_map. apply min_from_in.
Qed.

Lemma list_remove_member (x : json) (l : list json) :
  In x l -> exists l', Geo.list_remove x l = Ok l'.
Proof.
  induction l as [|y rest IH]; simpl; intros H; [destruct H|].
  unfold json_eqb. destruct (json_eq_dec y x) as [Heq|Hne]; [eauto|].
  destruct H as [H|H]; [congruence|].
  destruct (IH H) as [l' Hl]. rewrite Hl. simpl. eauto.
Qed.

Lemma order_loop_raises (n : nat) :
  forall pool ordered remaining e,
    List.length remaining = n ->
    In (last ordered JNull) pool ->
    incl remaining pool ->
    Geo.order_loop ordered remaining = Raise e ->
    e = KeyError \/ e = TypeError \/ Checks.distance_raises pool e.
Proof.
  induction n as [|n IH]; intros pool ordered remaining e Hlen Hlast Hincl Hrun.
  - destruct remaining; [|discriminate]. simp order_loop in Hrun. discriminate.
  - destruct remaining as [|r rs]; [discriminate|].
    pose proof (closest_to_outcome (last ordered JNull) r rs) as Hc.
    destruct (Geo.closest_to (last ordered JNull) (r :: rs)) as [next|e'] eqn:Hclosest.
    + destruct (list_remove_member next (r :: rs) Hc) as [rest Hr].
      rewrite (order_loop_step ordered r rs next rest Hclosest Hr) in Hrun.
      pose proof (Geo.list_remove_length next (r :: rs) rest Hr) as Hl.
      apply (IH pool (ordered ++ [next]) rest e); [simpl in *; lia| | |exact Hrun].
      * rewrite last_last. apply Hincl. exact Hc.
      * intros q Hq. apply Hincl.
        eapply Permutation_in;
          [apply Permutation_sym; exact (list_remove_permutation _ _ _ Hr)|].
        right. exact Hq.
    + rewrite (order_loop_raise ordered r rs e' Hclosest) in Hrun.
      inversion Hrun; subst.
      destruct Hc as [H|[H|(q & Hq & Hsep)]]; auto.
      right. right. exists (last ordered JNull), q. auto.
Qed.

Lemma order_raises_lookup (locations : list json) (e : exn) :
  Geo.order_locations_by_distance locations = Raise e ->
  e = KeyError \/ e = TypeError \/ Checks.distance_raises locations e.
Proof.
  intros Hrun. destruct locations as [|first rest]; simpl in Hrun; [discriminate|].
  apply (order_loop_raises (List.length rest) (first :: rest) [first] rest e eq_refl);
    [left; reflexivity|intros q Hq; right; exact Hq|exact Hrun].
Qed.

(** X5.  The only exceptions that leave [order_locations_by_distance] are the
    [KeyError] of a missing coordinate, the [TypeError] of an element that
    is not a dict or a coordinate that is not a number, and what the float
    arithmetic raises while the distance between two elements of the list is
    computed ([OverflowError], [ValueError]): [min] is never given an empty
    list and [remove] always finds its element. *)
Theorem order_raises_only_lookup_errors (locations : list json) (e : exn)
  (Hrun : Geo.order_locations_by_distance locations = Raise e) :
  e = KeyError \/ e = TypeError \/ Checks.distance_raises locations e.
Proof.
  exact (order_raises_lookup locations e Hrun).
Qed.

End RawInput.

Lemma order_raises_only_lookup_errors_witness :
  Geo.order_locations_by_distance [Samples.eiffel_tower; Samples.no_latitude]
  = Raise KeyError
  /\ (KeyError = KeyError \/ KeyError = TypeError
      \/ Checks.distance_raises (F := R)
           [Samples.eiffel_tower; Samples.no_latitude] KeyError).
Proof.
  assert (Hrun : Geo.order_locations_by_distance
                   [Samples.eiffel_tower; Samples.no_latitude] = Raise KeyError).
  { unfold Geo.order_locations_by_distance. apply order_loop_raise. reflexivity. }
  split; [exact Hrun|].
  exact (order_raises_only_lookup_errors
           [Samples.eiffel_tower; Samples.no_latitude] KeyError Hrun).
Defined.

(** X6.  A batch of one element is never reordered and its coordinates are
    never read; so validation of such a batch ends in the record, in the
    "Invalid location data" error showing that very element, or in the
    [TypeError] of unpacking an element that is not a dict. *)
Theorem single_element_batch {F : Type} {arith : Arithmetic F} (x : json) :
  Geo.order_locations_by_distance [x] = Ok [x]
  /\ Validator.validate_prediction_locations (JArr [x])
     = match Schemas.LocationCreate_new x with
       | Ok record => Ok [record]
       | Raise ValidationError => Raise (HTTPException 400 (InvalidLocationData x))
       | Raise e => Raise e
       end.
Proof.
  assert (Hord : Geo.order_locations_by_distance [x] = Ok [x]).
  { unfold Geo.order_locations_by_distance. now simp order_loop. }
  split; [exact Hord|].
  unfold Validator.validate_prediction_locations. cbn [truthy negb].
  rewrite Hord. cbn [bind traverse].
  destruct (Schemas.LocationCreate_new x) as [record|e]; cbn [bind]; [reflexivity|].
  destruct e; reflexivity.
Qed.

(** ** Promotion and validation *)

Lemma LocationCreate_new_ok (location : json) (r : Schemas.LocationCreate) :
  Schemas.LocationCreate_new location = Ok r ->
  Routes.is_dict location = true.
Proof.
  unfold Schemas.LocationCreate_new.
  destruct location as [| | | | |fields]; try discriminate. reflexivity.
Qed.

Lemma traverse_forall {A B : Type} (f : A -> result B) (P : A -> B -> Prop)
  (l : list A) (l' : list B) :
  (forall x y, f x = Ok y -> P x y) ->
  traverse f l = Ok l' -> Forall2 P l l'.
Proof.
  intros HP. revert l'; induction l as [|x rest IH]; simpl; intros l' H.
  - inversion H. constructor.
  - destruct (f x) as [y|e] eqn:Hx; simpl in H; [|discriminate].
    destruct (traverse f rest) as [ys|e]; simpl in H; [|discriminate].
    inversion H; subst. constructor; [exact (HP x y Hx)|exact (IH ys eq_refl)].
Qed.

Lemma LocationCreate_new_raises (location : json) (e : exn) :
  Schemas.LocationCreate_new location = Raise e ->
  e = ValidationError \/ e = TypeError.
Proof.
  unfold Schemas.LocationCreate_new, Schemas.required_str, Schemas.optional_str,
    Schemas.required_float, Schemas.optional_int.
  intros H.
  repeat match type of H with
         | Raise _ = Raise _ => inversion H; subst; auto
         | Ok _ = Raise _ => discriminate H
         | context [match ?x with _ => _ end] => destruct x; cbn [bind] in H
         | context [if ?b then _ else _] => destruct b; cbn [bind] in H
         end.
Qed.

Lemma traverse_raises {A B : Type} (f : A -> result B) (l : list A) (e : exn) :
  traverse f l = Raise e -> exists x, In x l /\ f x = Raise e.
Proof.
  induction l as [|x rest IH]; simpl; intros H; [discriminate|].
  destruct (f x) as [y|e'] eqn:Hx; simpl in H.
  - destruct (traverse f rest) as [ys|e'']; simpl in H; [discriminate|].
    inversion H; subst. destruct (IH eq_refl) as (x' & Hin & Hx'). eauto.
  - inversion H; subst. eauto.
Qed.

(** X8.  The failures of validation, on any decoded value: the HTTP 400
    "No locations generated" error for a falsy value, the HTTP 400 "Invalid
    location data" error showing element 0 of a list, and otherwise only
    [KeyError], [TypeError], or what the float arithmetic raises while the
    distance between two elements of the list is computed. *)
Theorem validation_failures {F : Type} {arith : Arithmetic F}
  (prediction : json) (e : exn)
  (Hfail : Validator.validate_prediction_locations prediction = Raise e) :
  (truthy prediction = false /\ e = HTTPException 400 NoLocationsGenerated)
  \/ (exists first rest,
         prediction = JArr (first :: rest)
         /\ e = HTTPException 400 (InvalidLocationData first))
  \/ e = KeyError \/ e = TypeError
  \/ (exists items, prediction = JArr items /\ Checks.distance_raises items e).
Proof.
  unfold Validator.validate_prediction_locations in Hfail.
  destruct (truthy prediction) eqn:Htruthy; cbn [negb] in Hfail.
  2:{ left. inversion Hfail; auto. }
  right.
  destruct prediction as [| | | |items|]; try discriminate;
    try (inversion Hfail; auto).
  clear H0.
  destruct (Geo.order_locations_by_distance items) as [ordered|e'] eqn:Hord;
    cbn [bind] in Hfail.
  - destruct (traverse Schemas.LocationCreate_new ordered) as [ls|e'] eqn:Htr;
      [discriminate|].
    destruct (traverse_raises _ _ _ Htr) as (x & _ & Hx).
    destruct (LocationCreate_new_raises x e' Hx) as [-> | ->].
    + left. destruct items as [|first rest]; [discriminate|].
      exists first, rest. inversion Hfail; auto.
    + inversion Hfail; auto.
  - inversion Hfail; subst e'.
    destruct (order_raises_lookup items e Hord) as [H|[H|H]]; auto.
    right. right. right. exists items. auto.
Qed.

Lemma validation_failures_witness :
  Validator.validate_prediction_locations
    (JArr [Samples.eiffel_tower; Samples.latitude_200])
  = Raise (HTTPException 400 (InvalidLocationData Samples.eiffel_tower))
  /\ exists first rest,
       JArr [Samples.eiffel_tower; Samples.latitude_200] = JArr (first :: rest)
       /\ HTTPException 400 (InvalidLocationData Samples.eiffel_tower)
          = HTTPException 400 (InvalidLocationData first).
Proof.
  assert (Hfail : Validator.validate_prediction_locations
                    (JArr [Samples.eiffel_tower; Samples.latitude_200])
                  = Raise (HTTPException 400 (InvalidLocationData Samples.eiffel_tower))).
  { apply (invalid_batch_shows_first _ _ [Samples.eiffel_tower; Samples.latitude_200]).
    - apply order_pair; reflexivity.
    - reflexivity. }
  split; [exact Hfail|].
  destruct (validation_failures _ _ Hfail) as [[Hfalsy _]|[Hshown|Hother]].
  - discriminate Hfalsy.
  - exact Hshown.
  - exfalso. destruct Hother as [H|[H|(items & Hitems & p & q & Hp & Hq & Hsep)]];
      [discriminate H|discriminate H|].
    destruct (measured_real p q) as (d & Hd & _). rewrite Hd in Hsep. discriminate.
Defined.

(** ** More on the retry call *)






(** ** More on parsing and the conversation *)

(** X11.  On a response text that [json.loads] decodes, or rejects with
    [JSONDecodeError], [parse_response] returns only lists and strings, never
    a dict, a number or [None]; and the only exception that leaves it is
    [TypeError] (from [json.loads(None)] or from [len] of a number, a boolean
    or [null]): a decode error never does. *)
Theorem parse_response_outcomes (response_text : option Client.payload) :
  match Client.parse_response response_text with
  | Ok locations =>
      (exists items, locations = JArr items) \/ (exists s, locations = JStr s)
  | Raise e => e = TypeError
  end.
Proof.
  unfold Client.parse_response, Client.json_loads.
  destruct response_text as [p|]; [|reflexivity].
  destruct (Client.loads p) as [v|]; cbn [bind]; [|left; eexists; reflexivity].
  destruct v as [| | | | |fields]; cbn [Client.py_len bind];
    try reflexivity; try (left; eexists; reflexivity);
    try (right; eexists; reflexivity).
  destruct (assoc "locations" fields) as [inner|];
    [|left; eexists; reflexivity].
  destruct inner; cbn [Client.py_len bind];
    try reflexivity; try (left; eexists; reflexivity);
    try (right; eexists; reflexivity).
Qed.

Lemma after_calls_messages (calls : list call) :
  forall self,
    Client.messages self <> [] ->
    Client.messages (after_calls self calls)
    = Client.messages self ++ flat_map Checks.exclusion_context calls.
Proof.
  unfold after_calls.
  induction calls as [|c calls IH]; intros self Hne; simpl.
  - now rewrite app_nil_r.
  - destruct c as [trip kind api|previous exclude_text api]; cbn [after_call].
    + rewrite trip_prediction_messages by exact Hne. now apply IH.
    + rewrite exclusion_prediction_messages. rewrite IH.
      * unfold Client.add_message. simpl. now rewrite <- app_assoc.
      * unfold Client.add_message. simpl. now destruct (Client.messages self).
Qed.

(** X12.  The conversation of a client after any sequence of calls is the system
    message followed by one "previous trip" message per exclusion call, in
    call order: trip predictions leave nothing behind, and each exclusion
    call leaves exactly its first message. *)
Theorem conversation_after_calls (model : string) (trip_type : TripTypeEnum)
  (calls : list call) :
  Client.messages (after_calls (Client.new_client model trip_type) calls)
  = system_message trip_type :: flat_map Checks.exclusion_context calls.
Proof.
  rewrite after_calls_messages; [reflexivity|discriminate].
Qed.

(** X13.  On a client that holds at least one message, [get_trip_prediction] sends
    at most 4 requests; each carries the conversation followed by one user
    message, which names [num_places] exactly when a non-zero [num_places] is
    given and the trip type is [by_place]; and the client is left as it
    was. *)
Theorem trip_prediction_requests (self : Client.client) (trip : TripCreateRequest)
  (trip_type : TripTypeEnum) (api : nat -> Client.api_outcome)
  (Hne : Client.messages self <> []) :
  let run := Client.get_trip_prediction self trip trip_type api in
  snd (fst run) = self
  /\ (List.length (filter is_request (snd run)) <= 4)%nat
  /\ exists user_message,
       Client.role user_message = "user"%string
       /\ (forall n, In (Client.Int n) (Client.content user_message)
                     <-> req_num_places trip = Some n /\ n <> 0%Z
                         /\ trip_type = by_place)
       /\ forall q, In (Client.Requested q) (snd run) ->
                    Client.req_messages q = Client.messages self ++ [user_message]
                    /\ Client.req_model q = Client.model self.
Proof.
  intros run. split; [exact (trip_prediction_messages self trip trip_type api Hne)|].
  subst run. unfold Client.get_trip_prediction.
  unfold Client.get_completions_create_response. rewrite keyword_binding.
  set (req_text := (_ ++ [Client.Lit Client.visiting_order])).
  destruct (attempts_requests (Client.add_message self "user" req_text)
              (req_num_places trip) api (seq 0 Client.max_retries) None)
    as [Hcount Hsame].
  destruct (Client.attempts _ _ _ _ _) as [r trace]. cbn [fst snd] in *.
  split; [exact Hcount|].
  exists {| Client.role := "user"; Client.content := req_text |}.
  split; [reflexivity|]. split.
  - intros n. subst req_text. cbn [Client.content].
    destruct (start_location trip) as [s|]; [destruct (String.eqb s EmptyString)|];
      (destruct (req_num_places trip) as [m|];
       [unfold Client.is_set;
        destruct (Z.eqb_spec m 0); destruct trip_type; cbn [negb andb TripTypeEnum_eqb]
       |]);
      (split;
       [intros Hin; cbn [app In] in Hin;
        repeat (destruct Hin as [Hin|Hin]; try discriminate Hin; try contradiction);
        try (inversion Hin; subst; auto)
       |intros (Hn & Hnz & Ht); try discriminate; try congruence;
        inversion Hn; subst; cbn [app In]; auto 10]).
  - intros q Hq. rewrite (Hsame q Hq). split; reflexivity.
Qed.

Lemma trip_prediction_requests_witness :
  let self := Client.new_client Routes.openai_model by_place in
  let trip := {| request_text := "Museums of Paris"; start_location := None;
                 req_num_places := Some 3%Z |} in
  snd (fst (Client.get_trip_prediction self trip by_place
              (fun _ => Client.ApiRaise APITimeoutError))) = self.
Proof.
  intros self trip.
  refine (proj1 (trip_prediction_requests self trip by_place
                   (fun _ => Client.ApiRaise APITimeoutError) _)).
  discriminate.
Defined.

(** ** More on storing a trip *)

Lemma bulk_create_locations_ids (locations_data : list Schemas.LocationCreate) :
  forall db db' created,
    Routes.bulk_create_locations db locations_data = (db', created) ->
    map Routes.location_id created
    = map (fun k => (Routes.next_id (Routes.locations db) + Z.of_nat k)%Z)
          (seq 0 (List.length locations_data)).
Proof.
  induction locations_data as [|d rest IH]; intros db db' created H; simpl in H.
  - inversion H; subst. reflexivity.
  - destruct (Routes.bulk_create_locations _ rest) as [db2 created2] eqn:Hb.
    inversion H; subst. cbn [map List.length seq Routes.location_id].
    f_equal; [lia|].
    rewrite (IH _ _ _ Hb). cbn [Routes.locations].
    rewrite <- seq_shift, map_map. apply map_ext. intros k.
    unfold Routes.next_id. rewrite length_app. simpl. lia.
Qed.

(** What a successful [store_trip] has done: validated the list, appended
    one trip and one location per record, and returned that trip with those
    locations. *)
Lemma store_trip_rows {F : Type} {arith : Arithmetic F}
  (db db' : Routes.database) (request_id : Z)
  (parent : option Z) (kind : TripTypeEnum) (prediction : json)
  (attempt : Routes.TripAttempt) :
  Routes.references_ok db ->
  Routes.store_trip db request_id parent kind prediction = Ok (db', attempt) ->
  exists items locations_list created,
    prediction = JArr items
    /\ Validator.validate_prediction_locations prediction = Ok locations_list
    /\ Routes.stored attempt
       = {| id := Routes.next_id (Routes.trips db); request_id := request_id;
            parent_id := parent; response_json := JArr items;
            num_places := Some (Z.of_nat (List.length items)); trip_type := kind |}
    /\ Routes.persisted attempt = created
    /\ Routes.trips db' = Routes.trips db ++ [Routes.stored attempt]
    /\ Routes.locations db' = Routes.locations db ++ created
    /\ map Routes.data created
       = Routes.assign_order (Routes.next_id (Routes.trips db)) 0 locations_list
    /\ map Routes.location_id created
       = map (fun k => (Routes.next_id (Routes.locations db) + Z.of_nat k)%Z)
             (seq 0 (List.length locations_list)).
Proof.
  intros Hok Hstore. unfold Routes.store_trip in Hstore.
  destruct (Validator.validate_prediction_locations prediction)
    as [locations_list|e] eqn:Hv; cbn [bind] in Hstore; [|discriminate].
  destruct (validate_ok_list prediction locations_list Hv) as (items & -> & Hlen).
  exists items, locations_list. cbn [Client.py_len bind] in Hstore.
  unfold Routes.TripCreate_new in Hstore.
  destruct (forallb Routes.is_dict items); cbn [bind] in Hstore; [|discriminate].
  unfold Routes.TripService_create_trip in Hstore.
  set (trip := {| id := Routes.next_id (Routes.trips db); request_id := request_id;
                  parent_id := parent; response_json := JArr items;
                  num_places := Some (Z.of_nat (List.length items));
                  trip_type := kind |}) in *.
  unfold Routes.create_locations_for_trip in Hstore.
  destruct (id trip =? 0)%Z; cbn [bind] in Hstore; [discriminate|].
  destruct (Routes.bulk_create_locations _ _) as [db2 created] eqn:Hb.
  destruct (bulk_create_locations_rows _ _ _ _ Hb) as (Ht & Hl & Hd).
  pose proof (bulk_create_locations_ids _ _ _ _ Hb) as Hids.
  cbn [Routes.trips Routes.locations] in Ht, Hl, Hids.
  destruct Hok as [Hlocs Htrips].
  unfold Routes.get_trip in Hstore. rewrite Ht in Hstore.
  rewrite (find_fresh_trip (Routes.trips db) trip Htrips) in Hstore.
  inversion Hstore; subst db' attempt. cbn [Routes.stored Routes.persisted].
  destruct (assign_order_trip_id (id trip) 0 locations_list) as [Hall Hlen'].
  exists created. unfold Routes.trip_locations. rewrite Hl.
  rewrite (filter_fresh_trip (Routes.locations db) created
             (Routes.next_id (Routes.trips db)) Hlocs)
    by (rewrite Hd; exact Hall).
  rewrite Hlen' in Hids.
  repeat split; try assumption; try reflexivity.
Qed.

Lemma sample_store_run :
  exists db' attempt,
    Routes.store_trip Routes.empty_database 1 None several_places
      (JArr [Samples.eiffel_tower; Samples.berlin]) = Ok (db', attempt).
Proof.
  unfold Routes.store_trip, Validator.validate_prediction_locations.
  cbn [truthy negb]. rewrite order_pair by reflexivity.
  eexists. eexists. reflexivity.
Qed.

Lemma empty_database_ok : Routes.references_ok Routes.empty_database.
Proof. split; constructor. Qed.

Lemma validate_ok_dicts {F : Type} {arith : Arithmetic F}
  (items : list json) (locations_list : list Schemas.LocationCreate) :
  Validator.validate_prediction_locations (JArr items) = Ok locations_list ->
  forallb Routes.is_dict items = true.
Proof.
  unfold Validator.validate_prediction_locations.
  destruct (negb (truthy (JArr items))); [discriminate|].
  destruct (Geo.order_locations_by_distance items) as [ordered|e] eqn:Hord;
    cbn [bind]; [|discriminate].
  destruct (traverse Schemas.LocationCreate_new ordered) as [ls|e] eqn:Htr;
    [|destruct e; discriminate].
  intros _.
  pose proof (traverse_forall Schemas.LocationCreate_new
                (fun location _ => Routes.is_dict location = true) ordered ls
                (fun x y H => LocationCreate_new_ok x y H) Htr) as Hall.
  assert (Hord' : Forall (fun x => Routes.is_dict x = true) ordered).
  { clear - Hall. induction Hall; constructor; assumption. }
  apply forallb_forall. intros x Hx. rewrite Forall_forall in Hord'.
  apply Hord'. eapply Permutation_in; [|exact Hx].
  exact (order_locations_permutation _ _ Hord).
Qed.

Lemma store_trip_total {F : Type} {arith : Arithmetic F} (db : Routes.database)
  (request_id : Z) (parent : option Z) (kind : TripTypeEnum) (prediction : json)
  (locations_list : list Schemas.LocationCreate) :
  Validator.validate_prediction_locations prediction = Ok locations_list ->
  exists db' attempt,
    Routes.store_trip db request_id parent kind prediction = Ok (db', attempt).
Proof.
  intros Hvalid.
  unfold Routes.store_trip. rewrite Hvalid. cbn [bind].
  destruct (validate_ok_list prediction locations_list Hvalid) as (items & -> & Hlen).
  cbn [Client.py_len bind]. unfold Routes.TripCreate_new.
  rewrite (validate_ok_dicts items locations_list Hvalid). cbn [bind].
  unfold Routes.TripService_create_trip, Routes.create_locations_for_trip.
  cbn [id].
  assert (Hid : (Routes.next_id (Routes.trips db) =? 0)%Z = false).
  { apply Z.eqb_neq. unfold Routes.next_id. lia. }
  rewrite Hid. cbn [bind].
  destruct (Routes.bulk_create_locations _ _) as [db2 created] eqn:Hb.
  destruct (bulk_create_locations_rows _ _ _ _ Hb) as (Ht & _ & _).
  cbn [Routes.trips] in Ht. unfold Routes.get_trip. rewrite Ht.
  destruct (find _ (Routes.trips db ++ _)) as [found|] eqn:Hfind; [eauto|].
  exfalso.
  pose proof (find_none _ _ Hfind
                {| id := Routes.next_id (Routes.trips db); request_id := request_id;
                   parent_id := parent; response_json := JArr items;
                   num_places := Some (Z.of_nat (List.length items));
                   trip_type := kind |}
                ltac:(apply in_or_app; right; left; reflexivity)) as Hnew.
  cbn [id] in Hnew. rewrite Z.eqb_refl in Hnew. discriminate.
Qed.

(** X14.  Once validation has accepted a prediction, storing it cannot fail: the
    trip row is never rejected and no location write raises, so a trip is
    never stored without its locations. *)
Theorem store_trip_succeeds_after_validation {F : Type} {arith : Arithmetic F}
  (db : Routes.database)
  (request_id : Z) (parent : option Z) (kind : TripTypeEnum) (prediction : json)
  (locations_list : list Schemas.LocationCreate)
  (Hvalid : Validator.validate_prediction_locations prediction = Ok locations_list) :
  exists db' attempt,
    Routes.store_trip db request_id parent kind prediction = Ok (db', attempt).
Proof.
  exact (store_trip_total db request_id parent kind prediction locations_list Hvalid).
Qed.

Lemma sample_validation :
  exists records,
    Validator.validate_prediction_locations
      (JArr [Samples.eiffel_tower; Samples.berlin]) = Ok records.
Proof.
  unfold Validator.validate_prediction_locations. cbn [truthy negb].
  rewrite order_pair by reflexivity. eexists. reflexivity.
Qed.

Lemma store_trip_succeeds_after_validation_witness :
  exists records db' attempt,
    Validator.validate_prediction_locations
      (JArr [Samples.eiffel_tower; Samples.berlin]) = Ok records
    /\ Routes.store_trip Routes.empty_database 1 None several_places
         (JArr [Samples.eiffel_tower; Samples.berlin]) = Ok (db', attempt).
Proof.
  destruct sample_validation as (records & Hvalid).
  destruct (store_trip_succeeds_after_validation Routes.empty_database 1 None
              several_places _ records Hvalid) as (db' & attempt & Hstore).
  exists records, db', attempt. split; assumption.
Defined.





Lemma store_trip_references_witness :
  exists db' attempt,
    Routes.store_trip Routes.empty_database 1 None several_places
      (JArr [Samples.eiffel_tower; Samples.berlin]) = Ok (db', attempt)
    /\ Routes.references_ok db'.
Proof.
  destruct sample_store_run as (db' & attempt & Hstore).
  exists db', attempt. split; [exact Hstore|].
  exact (store_trip_references Routes.empty_database db' 1 None several_places _
           attempt empty_database_ok Hstore).
Defined.

(** ** The routes *)

(** X18.  A trip stored for a request that had no trip yet is the one the
    exclusion route finds by that request id. *)
Theorem stored_trip_found_by_request {F : Type} {arith : Arithmetic F}
  (db db' : Routes.database) (request_id : Z)
  (parent : option Z) (kind : TripTypeEnum) (prediction : json)
  (attempt : Routes.TripAttempt)
  (Hok : Routes.references_ok db)
  (Hnew : Forall (fun t => request_id_of t <> request_id) (Routes.trips db))
  (Hstore : Routes.store_trip db request_id parent kind prediction = Ok (db', attempt)) :
  Routes.get_trip_by_request_id db' request_id = Ok (Some (Routes.stored attempt)).
Proof.
  destruct (store_trip_rows db db' request_id parent kind prediction attempt Hok Hstore)
    as (items & ls & created & -> & Hv & Hstored & _ & Ht & _).
  unfold Routes.get_trip_by_request_id. rewrite Ht, filter_app.
  assert (Hnone : filter (fun t => (request_id_of t =? request_id)%Z) (Routes.trips db)
                  = []).
  { clear - Hnew. induction Hnew as [|t ts Hne _ IH]; simpl; [reflexivity|].
    destruct (Z.eqb_spec (request_id_of t) request_id); [contradiction|exact IH]. }
  rewrite Hnone. cbn [app filter].
  assert (Hid : request_id_of (Routes.stored attempt) = request_id)
    by (rewrite Hstored; reflexivity).
  rewrite Hid, Z.eqb_refl. reflexivity.
Qed.

Lemma stored_trip_found_by_request_witness :
  exists db' attempt,
    Routes.store_trip Routes.empty_database 1 None several_places
      (JArr [Samples.eiffel_tower; Samples.berlin]) = Ok (db', attempt)
    /\ Routes.get_trip_by_request_id db' 1 = Ok (Some (Routes.stored attempt)).
Proof.
  destruct sample_store_run as (db' & attempt & Hstore).
  exists db', attempt. split; [exact Hstore|].
  exact (stored_trip_found_by_request Routes.empty_database db' 1 None
           several_places _ attempt empty_database_ok (Forall_nil _) Hstore).
Defined.

(** X19.  The exclusion route answers a request id that no stored trip carries
    with HTTP 404 "Trip not found", whatever the API would do. *)
Theorem exclusion_of_unknown_request {F : Type} {arith : Arithmetic F} (db : Routes.database)
  (request_id current_request_id : Z) (exclude_text : string)
  (api : nat -> Client.api_outcome)
  (Hnone : Forall (fun t => request_id_of t <> request_id) (Routes.trips db)) :
  Routes.exclude_locations_from_trip db request_id current_request_id exclude_text api
  = Raise (HTTPException 404 TripNotFound).
Proof.
  unfold Routes.exclude_locations_from_trip, Routes.get_trip_by_request_id.
  assert (Hfilter : filter (fun t => (request_id_of t =? request_id)%Z) (Routes.trips db)
                    = []).
  { clear - Hnone. induction Hnone as [|t ts Hne _ IH]; simpl; [reflexivity|].
    destruct (Z.eqb_spec (request_id_of t) request_id); [contradiction|exact IH]. }
  rewrite Hfilter. reflexivity.
Qed.

Lemma exclusion_of_unknown_request_witness :
  Routes.exclude_locations_from_trip Routes.empty_database 7 8 "Exclude Eiffel Tower"
    (fun _ => Client.ApiRaise APITimeoutError)
  = Raise (HTTPException 404 TripNotFound).
Proof.
  exact (exclusion_of_unknown_request Routes.empty_database 7 8 "Exclude Eiffel Tower"
           (fun _ => Client.ApiRaise APITimeoutError) (Forall_nil _)).
Defined.




(** ** The map *)

Lemma char_length_prefix (n : nat) (s : string) :
  char_length (char_prefix n s) = Nat.min n (char_length s).
Proof.
  revert n; induction s as [|c s IH]; intros n; simpl.
  - now rewrite Nat.min_0_r.
  - destruct (is_continuation_byte c) eqn:Hc; simpl; rewrite ?Hc.
    + apply IH.
    + destruct n as [|n]; simpl; [reflexivity|]. now rewrite Hc, IH.
Qed.

Lemma char_length_append (s1 s2 : string) :
  char_length (String.append s1 s2) = (char_length s1 + char_length s2)%nat.
Proof.
  induction s1 as [|c s1 IH]; simpl; [reflexivity|].
  destruct (is_continuation_byte c); now rewrite IH.
Qed.

Lemma char_prefix_is_prefix (n : nat) (s : string) :
  exists rest, s = String.append (char_prefix n s) rest.
Proof.
  revert n; induction s as [|c s IH]; intros n; simpl.
  - exists EmptyString. reflexivity.
  - destruct (is_continuation_byte c).
    + destruct (IH n) as [rest Hrest]. exists rest. simpl. now rewrite <- Hrest.
    + destruct n as [|n].
      * exists (String c s). reflexivity.
      * destruct (IH n) as [rest Hrest]. exists rest. simpl. now rewrite <- Hrest.
Qed.

(** X21.  The tooltip of every marker of the map: the popup text itself when
    that has at most 50 characters, and otherwise its first 50 characters
    followed by three dots, 53 characters in all; a marker without popup
    text has no tooltip. *)
Theorem tooltip_bounded (locations_data : list MapGen.location_tuple) :
  Forall (fun m =>
            (MapGen.popup m = None -> MapGen.tooltip m = None)
            /\ (forall d, MapGen.popup m = Some d -> (char_length d <= 50)%nat ->
                          MapGen.tooltip m = Some d)
            /\ (forall d, MapGen.popup m = Some d -> (50 < char_length d)%nat ->
                          exists cut rest,
                            MapGen.tooltip m = Some (String.append cut "...")
                            /\ d = String.append cut rest
                            /\ char_length cut = 50%nat
                            /\ cut = char_prefix 50 d
                            /\ char_length (String.append cut "...") = 53%nat))
         (MapGen.markers (MapGen.generate_full_map_html locations_data)).
Proof.
  unfold MapGen.generate_full_map_html. cbn [MapGen.markers].
  apply Forall_forall. intros m Hm. apply in_map_iff in Hm as (location & <- & _).
  cbn [MapGen.tooltip MapGen.popup].
  generalize (MapGen.description_of location) as description. intros [d|].
  2:{ repeat split; try discriminate. }
  unfold MapGen.tooltip_of.
  destruct (Nat.ltb_spec 50 (char_length d)) as [Hlong|Hshort].
  - assert (Hne : String.eqb d EmptyString = false).
    { destruct d; [simpl in Hlong; lia|reflexivity]. }
    rewrite Hne. cbn [negb andb].
    assert (Hlen : char_length (char_prefix 50 d) = 50%nat)
      by (rewrite char_length_prefix; lia).
    split; [discriminate|]. split.
    + intros d' Hd' Hle. inversion Hd'; subst d'. lia.
    + intros d' Hd' _. inversion Hd'; subst d'.
      destruct (char_prefix_is_prefix 50 d) as [rest Hrest].
      exists (char_prefix 50 d), rest.
      split; [reflexivity|]. split; [exact Hrest|]. split; [exact Hlen|].
      split; [reflexivity|].
      rewrite char_length_append, Hlen. reflexivity.
  - rewrite andb_false_r. split; [discriminate|]. split.
    + intros d' Hd' _. exact Hd'.
    + intros d' Hd' Hlong. inversion Hd'; subst d'. lia.
Qed.

Lemma validate_ok_nonempty {F : Type} {arith : Arithmetic F} (prediction : json)
  (locations_list : list Schemas.LocationCreate) :
  Validator.validate_prediction_locations prediction = Ok locations_list ->
  locations_list <> [].
Proof.
  intros Hv. destruct (validate_ok_list prediction locations_list Hv)
    as (items & -> & Hlen).
  unfold Validator.validate_prediction_locations in Hv.
  destruct items as [|first rest]; [discriminate|].
  intros ->. discriminate.
Qed.

Lemma assign_order_coordinates (trip_id i : Z) (locations_data : list Schemas.LocationCreate) :
  map (fun d => (Schemas.latitude d, Schemas.longitude d, Schemas.description d))
      (Routes.assign_order trip_id i locations_data)
  = map (fun d => (Schemas.latitude d, Schemas.longitude d, Schemas.description d))
        locations_data.
Proof.
  revert i; induction locations_data as [|d rest IH]; intros i; simpl; [reflexivity|].
  now rewrite IH.
Qed.

(** X22.  The map of a trip that [store_trip] has stored is never a 404: it has one
    marker per validated record, at that record's coordinates and in the
    validated order, and the red path through all of them is drawn exactly
    when there are two or more. *)
Theorem map_of_stored_trip {F : Type} {arith : Arithmetic F}
  (db db' : Routes.database) (request_id : Z)
  (parent : option Z) (kind : TripTypeEnum) (prediction : json)
  (attempt : Routes.TripAttempt)
  (Hok : Routes.references_ok db)
  (Hstore : Routes.store_trip db request_id parent kind prediction = Ok (db', attempt)) :
  exists m locations_list,
    MapGen.generate_html_from_map db' (id (Routes.stored attempt)) = (200%Z, Some m)
    /\ Validator.validate_prediction_locations prediction = Ok locations_list
    /\ map MapGen.marker_location (MapGen.markers m)
       = map (fun d => (Schemas.latitude d, Schemas.longitude d)) locations_list
    /\ map MapGen.popup (MapGen.markers m) = map Schemas.description locations_list
    /\ MapGen.path m
       = (if (1 <? List.length locations_list)%nat
          then Some (map (fun d => (Schemas.latitude d, Schemas.longitude d))
                         locations_list)
          else None).
Proof.
  destruct (store_trip_rows db db' request_id parent kind prediction attempt Hok Hstore)
    as (items & ls & created & -> & Hv & Hstored & Hpersisted & Ht & Hl & Hd & Hids).
  pose proof (validate_ok_nonempty _ _ Hv) as Hne.
  destruct Hok as [Hlocs Htrips].
  assert (Hnew : id (Routes.stored attempt) = Routes.next_id (Routes.trips db))
    by (rewrite Hstored; reflexivity).
  destruct (assign_order_trip_id (Routes.next_id (Routes.trips db)) 0 ls) as [Hall Hlen].
  rewrite <- Hd in Hall.
  assert (Hget : Routes.get_trip db' (id (Routes.stored attempt))
                 = Some (Routes.stored attempt)).
  { unfold Routes.get_trip. rewrite Ht. apply find_fresh_trip.
    rewrite Hnew. exact Htrips. }
  assert (Hlocations : Routes.trip_locations db' (id (Routes.stored attempt)) = created).
  { unfold Routes.trip_locations. rewrite Hl, Hnew.
    exact (filter_fresh_trip _ created _ Hlocs Hall). }
  assert (Htuples :
            map (fun loc => (Schemas.latitude (Routes.data loc),
                             Schemas.longitude (Routes.data loc),
                             Schemas.description (Routes.data loc))) created
            = map (fun d => (Schemas.latitude d, Schemas.longitude d,
                             Schemas.description d)) ls).
  { rewrite <- (map_map Routes.data
                  (fun d => (Schemas.latitude d, Schemas.longitude d,
                             Schemas.description d))).
    rewrite Hd. apply assign_order_coordinates. }
  assert (Hcreated : created <> []).
  { intros ->. simpl in Hd. rewrite <- Hd in Hlen. simpl in Hlen.
    destruct ls; [congruence|discriminate]. }
  unfold MapGen.generate_html_from_map. rewrite Hget, Hlocations.
  destruct created as [|c cs] eqn:Hc; [congruence|]. rewrite <- Hc in *.
  eexists. exists ls. split; [reflexivity|]. split; [exact Hv|].
  unfold MapGen.generate_full_map_html.
  cbn [MapGen.markers MapGen.path]. rewrite !map_map. cbn [MapGen.marker_location
    MapGen.popup MapGen.coordinates MapGen.description_of].
  assert (Hcoords : map (fun loc => (Schemas.latitude (Routes.data loc),
                                     Schemas.longitude (Routes.data loc))) created
                    = map (fun d => (Schemas.latitude d, Schemas.longitude d)) ls).
  { apply (f_equal (map (fun t : Qc * Qc * option string => fst t))) in Htuples.
    rewrite !map_map in Htuples. exact Htuples. }
  assert (Hdescr : map (fun loc => Schemas.description (Routes.data loc)) created
                   = map Schemas.description ls).
  { apply (f_equal (map (fun t : Qc * Qc * option string => snd t))) in Htuples.
    rewrite !map_map in Htuples. exact Htuples. }
  split; [exact Hcoords|]. split; [exact Hdescr|].
  rewrite length_map.
  assert (Hsame : List.length created = List.length ls).
  { rewrite <- (length_map Routes.data), Hd. exact Hlen. }
  rewrite Hsame. destruct (1 <? List.length ls)%nat; [|reflexivity].
  f_equal. exact Hcoords.
Qed.

Lemma map_of_stored_trip_witness :
  exists db' attempt m,
    Routes.store_trip Routes.empty_database 1 None several_places
      (JArr [Samples.eiffel_tower; Samples.berlin]) = Ok (db', attempt)
    /\ MapGen.generate_html_from_map db' (id (Routes.stored attempt)) = (200%Z, Some m).
Proof.
  destruct sample_store_run as (db' & attempt & Hstore).
  destruct (map_of_stored_trip Routes.empty_database db' 1 None several_places _
              attempt empty_database_ok Hstore) as (m & ls & Hmap & _).
  exists db', attempt, m. split; assumption.
Defined.

(** ** The audit record *)

(** X23.  [validate_body] accepts a missing or empty body and any body with a
    [text] key, but it rejects with [ValueError] every body the two trip
    routes store: neither dump has a [text] key. *)
Theorem validate_body_rejects_stored_bodies (method url : string)
  (headers : option (list (string * json))) (trip_data : TripCreateRequest)
  (exclude_text : string) :
  Audit.validate_body (Audit.create_trip_audit method url headers trip_data)
  = Raise ValueError
  /\ Audit.validate_body (Audit.exclusion_audit method url headers exclude_text)
     = Raise ValueError
  /\ Audit.validate_body
       {| Audit.method := method; Audit.url := url; Audit.headers := headers;
          Audit.body := None |} = Ok tt
  /\ Audit.validate_body
       {| Audit.method := method; Audit.url := url; Audit.headers := headers;
          Audit.body := Some [] |} = Ok tt
  /\ forall fields v,
       assoc "text" fields = Some v ->
       Audit.validate_body
         {| Audit.method := method; Audit.url := url; Audit.headers := headers;
            Audit.body := Some fields |} = Ok tt.
Proof.
  repeat split.
  intros fields v Hv. unfold Audit.validate_body. cbn [Audit.body].
  destruct fields as [|field fields]; [reflexivity|]. now rewrite Hv.
Qed.
